(** * Colour helpers and formulas of the HSLuv pack

    A shallow embedding of [helpers.ts], [types.ts] and the formulas of
    [pack.ts] that convert, classify and interpolate colours.

    Numbers.  The source computes with JavaScript numbers.  The parts that
    only add, subtract, multiply, divide, compare and round are embedded over
    the rationals [Q], so that they run; the luminance code calls [Math.pow]
    with exponent 2.4 and is embedded over the reals [R] with [Rpower].  Both
    are the exact arithmetic that the doubles of the source approximate.

    The [hsluv] package.  [pack.ts] and [helpers.ts] import the class [Hsluv]
    from the npm package of that name.  The package is not part of the
    repository, so its conversions are a parameter ([HsluvLib]) of every
    definition that calls them. *)

From Stdlib Require Import ZArith QArith Qround Qabs Qminmax.
From Stdlib Require Import Reals Psatz Lia.
From Stdlib Require Import Ascii String List Bool.
Import ListNotations.

Local Open Scope Z_scope.

(** ** JavaScript primitives *)

(** [Math.round]: the nearest integer, a tie going up. *)
Definition Math_round (x : Q) : Z := Qfloor (x + (1 # 2)).

(** [Math.round(x * 100) / 100], the two-decimal rounding of the source. *)
Definition round2 (x : Q) : Q := inject_Z (Math_round (x * 100)) / 100.

(** The remainder operator [%] on numbers: the quotient is truncated toward
    zero, so the result has the sign of the dividend. *)
Definition Qtrunc (x : Q) : Z :=
  if Qle_bool 0 x then Qfloor x else Qceiling x.

Definition js_rem (x m : Q) : Q := x - m * inject_Z (Qtrunc (x / m)).

(** Comparisons of numbers, as booleans. *)
Definition Qlt_bool (x y : Q) : bool := negb (Qle_bool y x).

(** ** Strings of hexadecimal digits *)

Definition isHexDigit (c : ascii) : bool :=
  let n := N_of_ascii c in
  (((48 <=? n) && (n <=? 57)) || ((65 <=? n) && (n <=? 70))
   || ((97 <=? n) && (n <=? 102)))%N.

Definition hexDigitValue (c : ascii) : option Z :=
  let n := N_of_ascii c in
  if ((48 <=? n) && (n <=? 57))%N then Some (Z.of_N n - 48)
  else if ((65 <=? n) && (n <=? 70))%N then Some (Z.of_N n - 55)
  else if ((97 <=? n) && (n <=? 102))%N then Some (Z.of_N n - 87)
  else None.

(** The digit characters of [Number.prototype.toString(16)]: lower case. *)
Definition hexDigitChar (d : N) : ascii :=
  if (d <? 10)%N then ascii_of_N (48 + d) else ascii_of_N (87 + d).

Fixpoint toHexDigits (fuel : nat) (n : N) (acc : string) : string :=
  match fuel with
  | O => String (hexDigitChar (n mod 16)) acc
  | S fuel' =>
      if (n <? 16)%N then String (hexDigitChar n) acc
      else toHexDigits fuel' (n / 16) (String (hexDigitChar (n mod 16)) acc)
  end.

(** [n.toString(16)] for an integer [n]: a minus sign, then the digits of
    the absolute value. *)
Definition toString16 (n : Z) : string :=
  let digits := toHexDigits (N.to_nat (N.size (Z.abs_N n))) (Z.abs_N n) EmptyString in
  if n <? 0 then String "-" digits else digits.

(** [s.padStart(2, '0')]. *)
Definition padStart2 (s : string) : string :=
  match s with
  | EmptyString => "00"
  | String c EmptyString => String "0" (String c EmptyString)
  | _ => s
  end.

(** [String.prototype.toLowerCase] on the ASCII letters. *)
Definition toLowerAscii (c : ascii) : ascii :=
  let n := N_of_ascii c in
  if ((65 <=? n) && (n <=? 90))%N then ascii_of_N (n + 32) else c.

Fixpoint toLowerCase (s : string) : string :=
  match s with
  | EmptyString => EmptyString
  | String c r => String (toLowerAscii c) (toLowerCase r)
  end.

(** ** types.ts *)

Record RGBColor := { rgb_r : Z; rgb_g : Z; rgb_b : Z }.

Record HSLuvColor := { hsl_h : Q; hsl_s : Q; hsl_l : Q }.

Record HPLuvColor := { hpl_h : Q; hpl_p : Q; hpl_l : Q }.

Record CMYKColor := { cmyk_c : Q; cmyk_m : Q; cmyk_y : Q; cmyk_k : Q }.

Inductive WCAGLevel := AA | AAA.
Inductive TextSize := large | small.
Inductive ColorBlindnessType := protanopia | deuteranopia | tritanopia.

Module WCAG_CONTRAST_RATIOS.
Definition AA_NORMAL : R := 4.5%R.
Definition AA_LARGE : R := 3.0%R.
Definition AAA_NORMAL : R := 7.0%R.
Definition AAA_LARGE : R := 4.5%R.
End WCAG_CONTRAST_RATIOS.

(** ** helpers.ts: validation *)

(** [/^#[0-9A-Fa-f]{6}$/.test(hex)] *)
Definition isValidHexColor (hex : string) : bool :=
  match hex with
  | String "#" rest =>
      (String.length rest =? 6)%nat
      && forallb isHexDigit (list_ascii_of_string rest)
  | _ => false
  end.

Definition isValidHsluv (h s l : Q) : bool :=
  Qle_bool 0 h && Qle_bool h 360 && Qle_bool 0 s && Qle_bool s 100
  && Qle_bool 0 l && Qle_bool l 100.

Definition isValidHpluv (h p l : Q) : bool :=
  Qle_bool 0 h && Qle_bool h 360 && Qle_bool 0 p && Qle_bool p 100
  && Qle_bool 0 l && Qle_bool l 100.

Definition isValidRgb (r g b : Q) : bool :=
  Qle_bool 0 r && Qle_bool r 255 && Qle_bool 0 g && Qle_bool g 255
  && Qle_bool 0 b && Qle_bool b 255.

(** ** helpers.ts: hex strings and channel triples *)

(** [hex.replace(/^#/, '')] *)
Definition stripHash (hex : string) : string :=
  match hex with
  | String "#" rest => rest
  | _ => hex
  end.

(** [s.match(/.{2}/g)]: the consecutive two-character pieces. *)
Fixpoint chunks2 (s : list ascii) : list (ascii * ascii) :=
  match s with
  | a :: b :: r => (a, b) :: chunks2 r
  | _ => []
  end.

(** [parseInt(x, 16)] on a piece made of two hexadecimal digits.  On any
    other piece the source's [parseInt] reads a shorter prefix or answers
    NaN; no formula reaches that case, each validates its colours first, and
    the model answers [None] there. *)
Definition parseInt16 (x : ascii * ascii) : option Z :=
  match hexDigitValue (fst x), hexDigitValue (snd x) with
  | Some hi, Some lo => Some (16 * hi + lo)
  | _, _ => None
  end.

Fixpoint mapM {A B : Type} (f : A -> option B) (l : list A) : option (list B) :=
  match l with
  | [] => Some []
  | a :: r =>
      match f a, mapM f r with
      | Some b, Some bs => Some (b :: bs)
      | _, _ => None
      end
  end.

(** [hexToRgb]: the pieces parsed in base 16, and [[0, 0, 0]] when [match]
    finds no piece. *)
Definition hexToRgb (hex : string) : option (list Z) :=
  match chunks2 (list_ascii_of_string (stripHash hex)) with
  | [] => Some [0; 0; 0]
  | pieces => mapM parseInt16 pieces
  end.

(** [rgbToHex] *)
Definition rgbToHex (rgb : list Q) : string :=
  String "#"
    (String.concat ""
       (map (fun x => padStart2 (toString16 (Math_round x))) rgb)).

(** ** helpers.ts: luminance and contrast (over the reals) *)

(** The channel transfer of [getLuminance]. *)
Definition linearize (x : R) : R :=
  if Rle_dec x 0.03928 then (x / 12.92)%R
  else Rpower ((x + 0.055) / 1.055) 2.4.

(** [getLuminance]; [None] when [hexToRgb] is outside its model or yields
    fewer than three channels (the source then adds [undefined]). *)
Definition getLuminance (hex : string) : option R :=
  match hexToRgb hex with
  | Some channels =>
      let rgb := map (fun x => (IZR x / 255)%R) channels in
      let rgb := map linearize rgb in
      match rgb with
      | r :: g :: b :: _ => Some (0.2126 * r + 0.7152 * g + 0.0722 * b)%R
      | _ => None
      end
  | None => None
  end.

(** [Number(x.toFixed(2))]: the nearest multiple of 1/100, a tie going away
    from zero. *)
Definition toFixed2 (x : R) : R :=
  if Rlt_dec x 0 then (- (IZR (Zfloor (- x * 100 + / 2)) / 100))%R
  else (IZR (Zfloor (x * 100 + / 2)) / 100)%R.

Definition calculateContrastRatio (color1 color2 : string) : option R :=
  match getLuminance color1, getLuminance color2 with
  | Some l1, Some l2 =>
      let ratio := ((Rmax l1 l2 + 0.05) / (Rmin l1 l2 + 0.05))%R in
      Some (toFixed2 ratio)
  | _, _ => None
  end.

Definition Rge_bool (x y : R) : bool := if Rge_dec x y then true else false.

(** [checkAccessibility].  The final [return false] of the source is for a
    level that is neither ['AA'] nor ['AAA']; [WCAGLevel] has no such value. *)
Definition checkAccessibility (foreground background : string)
    (level : WCAGLevel) (size : TextSize) : option bool :=
  match calculateContrastRatio foreground background with
  | Some ratio =>
      Some
        match level with
        | AA =>
            match size with
            | large => Rge_bool ratio WCAG_CONTRAST_RATIOS.AA_LARGE
            | small => Rge_bool ratio WCAG_CONTRAST_RATIOS.AA_NORMAL
            end
        | AAA =>
            match size with
            | large => Rge_bool ratio WCAG_CONTRAST_RATIOS.AAA_LARGE
            | small => Rge_bool ratio WCAG_CONTRAST_RATIOS.AAA_NORMAL
            end
        end
  | None => None
  end.

(** ** helpers.ts: hue rotation, CMYK, dichromacy *)

Local Open Scope Q_scope.

Definition rotateHue (h degrees : Q) : Q := js_rem (h + degrees) 360.

(** A division whose divisor is computed: [None] stands for the NaN or
    infinity that a zero divisor gives in the source. *)
Definition js_div (a b : Q) : option Q :=
  if Qeq_bool b 0 then None else Some (a / b).

Definition rgbToCmyk (r g b : Q) : option CMYKColor :=
  let c := 1 - r / 255 in
  let m := 1 - g / 255 in
  let y := 1 - b / 255 in
  let k := Qmin c (Qmin m y) in
  if Qeq_bool k 1 then
    Some {| cmyk_c := 0; cmyk_m := 0; cmyk_y := 0; cmyk_k := 1 |}
  else
    match js_div (c - k) (1 - k), js_div (m - k) (1 - k),
          js_div (y - k) (1 - k) with
    | Some c, Some m, Some y =>
        Some {| cmyk_c := round2 c; cmyk_m := round2 m;
                cmyk_y := round2 y; cmyk_k := round2 k |}
    | _, _, _ => None
    end.

Definition cmykToRgb (c m y k : Q) : RGBColor :=
  let r := 255 * (1 - c) * (1 - k) in
  let g := 255 * (1 - m) * (1 - k) in
  let b := 255 * (1 - y) * (1 - k) in
  {| rgb_r := Math_round r; rgb_g := Math_round g; rgb_b := Math_round b |}.

Definition matrices (type : ColorBlindnessType) : list (list Q) :=
  match type with
  | protanopia =>
      [ [0.567; 0.433; 0];
        [0.558; 0.442; 0];
        [0; 0.242; 0.758] ]
  | deuteranopia =>
      [ [0.625; 0.375; 0];
        [0.7; 0.3; 0];
        [0; 0.3; 0.7] ]
  | tritanopia =>
      [ [0.95; 0.05; 0];
        [0; 0.433; 0.567];
        [0; 0.475; 0.525] ]
  end.

(** [matrix[i][j]] *)
Definition entry (matrix : list (list Q)) (i j : nat) : Q :=
  nth j (nth i matrix []) 0.

(** [simulateColorBlindness]; [None] when the array has fewer than three
    entries (the source then multiplies [undefined]). *)
Definition simulateColorBlindness (rgb : list Q) (type : ColorBlindnessType)
    : option (list Z) :=
  match rgb with
  | rgb0 :: rgb1 :: rgb2 :: _ =>
      let matrix := matrices type in
      Some
        (map Math_round
           [ rgb0 * entry matrix 0 0 + rgb1 * entry matrix 0 1 + rgb2 * entry matrix 0 2;
             rgb0 * entry matrix 1 0 + rgb1 * entry matrix 1 1 + rgb2 * entry matrix 1 2;
             rgb0 * entry matrix 2 0 + rgb1 * entry matrix 2 1 + rgb2 * entry matrix 2 2 ])
  | _ => None
  end.

(** ** The [Hsluv] class of the [hsluv] package *)

(** The conversions the pack calls.  Each reads some fields of the object
    and writes others; the four functions below are what they compute. *)
Record HsluvLib := {
  lib_hexToHsluv : string -> HSLuvColor;
  lib_hsluvToHex : HSLuvColor -> string;
  lib_hexToHpluv : string -> HPLuvColor;
  lib_hpluvToHex : HPLuvColor -> string
}.

(** The fields of an [Hsluv] object that the pack reads or writes. *)
Record Hsluv := {
  hex : string;
  hsluv_h : Q; hsluv_s : Q; hsluv_l : Q;
  hpluv_h : Q; hpluv_p : Q; hpluv_l : Q
}.

(** [new Hsluv()] *)
Definition new_Hsluv : Hsluv :=
  {| hex := "#000000"; hsluv_h := 0; hsluv_s := 0; hsluv_l := 0;
     hpluv_h := 0; hpluv_p := 0; hpluv_l := 0 |}.

Definition set_hex (o : Hsluv) (v : string) : Hsluv :=
  {| hex := v; hsluv_h := hsluv_h o; hsluv_s := hsluv_s o; hsluv_l := hsluv_l o;
     hpluv_h := hpluv_h o; hpluv_p := hpluv_p o; hpluv_l := hpluv_l o |}.

Definition set_hsluv (o : Hsluv) (h s l : Q) : Hsluv :=
  {| hex := hex o; hsluv_h := h; hsluv_s := s; hsluv_l := l;
     hpluv_h := hpluv_h o; hpluv_p := hpluv_p o; hpluv_l := hpluv_l o |}.

Definition set_hsluv_h (o : Hsluv) (h : Q) : Hsluv :=
  set_hsluv o h (hsluv_s o) (hsluv_l o).

Definition set_hpluv (o : Hsluv) (h p l : Q) : Hsluv :=
  {| hex := hex o; hsluv_h := hsluv_h o; hsluv_s := hsluv_s o; hsluv_l := hsluv_l o;
     hpluv_h := h; hpluv_p := p; hpluv_l := l |}.

Inductive Result (A : Type) : Type :=
| Ok (value : A)
| UserVisibleError (message : string).
Arguments Ok {A} value.
Arguments UserVisibleError {A} message.

Section WithHsluv.

Variable lib : HsluvLib.

(** *** Methods of the object *)

(** [hexToHsluv] and [hexToHpluv] start with the package's [hexToRgb], which
    replaces the [hex] field by its lower-case form before the channels are
    read, so that the object holds the colour in lower case afterwards. *)
Definition hexToHsluv (o : Hsluv) : Hsluv :=
  let c := lib_hexToHsluv lib (hex o) in
  set_hsluv (set_hex o (toLowerCase (hex o))) (hsl_h c) (hsl_s c) (hsl_l c).

Definition hsluvToHex (o : Hsluv) : Hsluv :=
  set_hex o
    (lib_hsluvToHex lib
       {| hsl_h := hsluv_h o; hsl_s := hsluv_s o; hsl_l := hsluv_l o |}).

Definition hexToHpluv (o : Hsluv) : Hsluv :=
  let c := lib_hexToHpluv lib (hex o) in
  set_hpluv (set_hex o (toLowerCase (hex o))) (hpl_h c) (hpl_p c) (hpl_l c).

Definition hpluvToHex (o : Hsluv) : Hsluv :=
  set_hex o
    (lib_hpluvToHex lib
       {| hpl_h := hpluv_h o; hpl_p := hpluv_p o; hpl_l := hpluv_l o |}).

(** *** helpers.ts: harmony *)

(** The classification of [evaluateColorHarmony], from the two hues on. *)
Definition harmonyOfHues (h1 h2 : Q) : string :=
  let hueDiff := Qabs (h1 - h2) in
  let hueDiff := if Qlt_bool 180 hueDiff then 360 - hueDiff else hueDiff in
  if Qlt_bool hueDiff 30 then "Analogous (harmonious)"
  else if Qlt_bool (Qabs (hueDiff - 180)) 30 then "Complementary (high contrast)"
  else if Qlt_bool (Qabs (hueDiff - 120)) 30 then "Triadic (balanced)"
  else if Qlt_bool (Qabs (hueDiff - 90)) 30 then "Square (vibrant)"
  else "Discordant (use with caution)".

Definition evaluateColorHarmony (color1 color2 : string) : string :=
  let hsluv1 := set_hex new_Hsluv color1 in
  let hsluv2 := set_hex new_Hsluv color2 in
  let hsluv1 := hexToHsluv hsluv1 in
  let hsluv2 := hexToHsluv hsluv2 in
  harmonyOfHues (hsluv_h hsluv1) (hsluv_h hsluv2).

(** *** pack.ts: conversions *)

(** The message of the hex validation, the same in every formula. *)
Definition invalidHex : string :=
  "Invalid hex color format. Please use #RRGGBB format.".

Definition HexToHsluv (hex : string) : Result HSLuvColor :=
  if negb (isValidHexColor hex) then UserVisibleError invalidHex
  else
    let color := set_hex new_Hsluv hex in
    let color := hexToHsluv color in
    Ok {| hsl_h := round2 (hsluv_h color);
          hsl_s := round2 (hsluv_s color);
          hsl_l := round2 (hsluv_l color) |}.

Definition HsluvToHex (h s l : Q) : Result string :=
  if negb (isValidHsluv h s l) then
    UserVisibleError
      "Invalid HSLuv values. Hue: 0-360, Saturation and Lightness: 0-100."
  else
    let color := set_hsluv new_Hsluv h s l in
    let color := hsluvToHex color in
    Ok (hex color).

Definition HexToHpluv (hex : string) : Result HPLuvColor :=
  if negb (isValidHexColor hex) then UserVisibleError invalidHex
  else
    let color := set_hex new_Hsluv hex in
    let color := hexToHpluv color in
    Ok {| hpl_h := round2 (hpluv_h color);
          hpl_p := round2 (hpluv_p color);
          hpl_l := round2 (hpluv_l color) |}.

Definition HpluvToHex (h p l : Q) : Result string :=
  if negb (isValidHpluv h p l) then
    UserVisibleError
      "Invalid HPLuv values. Hue: 0-360, Percent and Lightness: 0-100."
  else
    let color := set_hpluv new_Hsluv h p l in
    let color := hpluvToHex color in
    Ok (hex color).

(** *** pack.ts: schemes *)

(** One round of the loop of [TriadicScheme]: rotate the hue of the object,
    convert, and push the colour. *)
Definition rotateAndPush (angle : Q) (st : Hsluv * list string)
    : Hsluv * list string :=
  let color := set_hsluv_h (fst st) (rotateHue (hsluv_h (fst st)) angle) in
  let color := hsluvToHex color in
  (color, snd st ++ [hex color]).

Definition TriadicScheme (baseColor : string) : Result (list string) :=
  if negb (isValidHexColor baseColor) then UserVisibleError invalidHex
  else
    let color := set_hex new_Hsluv baseColor in
    let color := hexToHsluv color in
    let scheme := [hex color] in
    (* for (let i = 1; i < 3; i++) *)
    Ok (snd (fold_left (fun st (_ : Z) => rotateAndPush 120 st)
               [1%Z; 2%Z] (color, scheme))).

Definition TetradicScheme (baseColor : string) : Result (list string) :=
  if negb (isValidHexColor baseColor) then UserVisibleError invalidHex
  else
    let color := set_hex new_Hsluv baseColor in
    let color := hexToHsluv color in
    let baseHue := hsluv_h color in
    let scheme := [hex color] in
    let color := set_hsluv_h color (rotateHue baseHue 60) in
    let color := hsluvToHex color in
    let scheme := scheme ++ [hex color] in
    let color := set_hsluv_h color (rotateHue baseHue 180) in
    let color := hsluvToHex color in
    let scheme := scheme ++ [hex color] in
    let color := set_hsluv_h color (rotateHue baseHue 240) in
    let color := hsluvToHex color in
    let scheme := scheme ++ [hex color] in
    Ok scheme.

End WithHsluv.

(** *** pack.ts: gradient *)

(** The values [i] of [for (let i = 0; i < steps; i++)]: the integers from 0
    that are below [steps]. *)
Definition loopIndices (steps : Q) : list Z :=
  map Z.of_nat (seq 0 (Z.to_nat (Qceiling steps))).

(** [LinearGradient]; [None] only where [hexToRgb] is outside its model,
    which the validation of the two colours excludes. *)
Definition LinearGradient (color1 color2 : string) (steps : Q)
    : option (Result (list string)) :=
  if negb (isValidHexColor color1) || negb (isValidHexColor color2) then
    Some (UserVisibleError invalidHex)
  else if Qlt_bool steps 2 || Qlt_bool 100 steps then
    Some (UserVisibleError "Steps must be between 2 and 100.")
  else
    match hexToRgb color1, hexToRgb color2 with
    | Some (r1 :: g1 :: b1 :: _), Some (r2 :: g2 :: b2 :: _) =>
        Some (Ok
          (map (fun i : Z =>
                  let ratio := inject_Z i / (steps - 1) in
                  let r := Math_round (inject_Z r1 * (1 - ratio) + inject_Z r2 * ratio) in
                  let g := Math_round (inject_Z g1 * (1 - ratio) + inject_Z g2 * ratio) in
                  let b := Math_round (inject_Z b1 * (1 - ratio) + inject_Z b2 * ratio) in
                  rgbToHex [inject_Z r; inject_Z g; inject_Z b])
               (loopIndices steps)))
    | _, _ => None
    end.

(** ** Definitions used to state the properties *)

Definition rowSum (row : list Q) : Q := fold_right Qplus 0 row.

(** A matrix row with non-negative entries that add up to 1. *)
Definition stochasticRow (row : list Q) : Prop :=
  Forall (fun x => 0 <= x) row /\ rowSum row == 1.

(** [cmykToRgb] after [rgbToCmyk], as the formulas [RGBToCMYK] and
    [CMYKToRGB] compose. *)
Definition cmykRoundTrip (r g b : Z) : option RGBColor :=
  match rgbToCmyk (inject_Z r) (inject_Z g) (inject_Z b) with
  | Some x => Some (cmykToRgb (cmyk_c x) (cmyk_m x) (cmyk_y x) (cmyk_k x))
  | None => None
  end.

(** The channel that comes back for a channel [x] of a colour whose largest
    channel is [top]. *)
Definition roundTripChannel (x top : Z) : Z :=
  let v := 1 - inject_Z x / 255 in
  let k := 1 - inject_Z top / 255 in
  Math_round (255 * (1 - round2 ((v - k) / (1 - k))) * (1 - round2 k)).

Definition rangeZ (n : nat) : list Z := map Z.of_nat (seq 0 n).

Definition withinTwo (top x : Z) : bool :=
  (Z.abs (roundTripChannel x top - x) <=? 2)%Z.

(** The circular distance of two hues, [min(|dh|, 360 - |dh|)]. *)
Definition circularDistance (h1 h2 : Q) : Q :=
  Qmin (Qabs (h1 - h2)) (360 - Qabs (h1 - h2)).

(** Two angles that differ by whole turns. *)
Definition congruent360 (x y : Q) : Prop :=
  exists k : Z, x == y + 360 * inject_Z k.

(** Classification by the nearest target, as the harmony claim words it: the
    label of the target closest to the distance when that target is within
    30 degrees, and discordant otherwise. *)
Definition harmonyTargets : list (Q * string) :=
  [ (0, "Analogous (harmonious)"%string);
    (180, "Complementary (high contrast)"%string);
    (120, "Triadic (balanced)"%string);
    (90, "Square (vibrant)"%string) ].

Definition nearestTarget (d : Q) : Q * string :=
  fold_left
    (fun best t =>
       if Qlt_bool (Qabs (d - fst t)) (Qabs (d - fst best)) then t else best)
    (tl harmonyTargets) (hd (0, EmptyString) harmonyTargets).

Definition harmonyByNearestTarget (d : Q) : string :=
  let t := nearestTarget d in
  if Qle_bool (Qabs (d - fst t)) 30 then snd t
  else "Discordant (use with caution)"%string.

(** The colour of step [i] of a gradient of [steps] colours from the
    channels [rgb1] to the channels [rgb2]. *)
Definition gradientStep (r1 g1 b1 r2 g2 b2 : Z) (steps : Q) (i : Z) : string :=
  let ratio := inject_Z i / (steps - 1) in
  rgbToHex
    [ inject_Z (Math_round (inject_Z r1 * (1 - ratio) + inject_Z r2 * ratio));
      inject_Z (Math_round (inject_Z g1 * (1 - ratio) + inject_Z g2 * ratio));
      inject_Z (Math_round (inject_Z b1 * (1 - ratio) + inject_Z b2 * ratio)) ].



(** The luminance of three device channels, as [getLuminance] combines
    them. *)
Definition luminanceOf (r g b : Z) : R :=
  (0.2126 * linearize (IZR r / 255) + 0.7152 * linearize (IZR g / 255)
   + 0.0722 * linearize (IZR b / 255))%R.

(** * The rest of the helpers and formulas

    Not embedded: the formulas [HexToRgb] and [RgbToHex], which only read
    and write the channel fields of the package's object, and
    [ColorPreviewFormatter], which builds an SVG image. *)

(** ** types.ts: standard colours *)

Module STANDARD_COLORS.
Definition BLACK : string := "#000000".
Definition WHITE : string := "#FFFFFF".
End STANDARD_COLORS.

(** ** helpers.ts: mixing, temperature, names *)

(** [rgb1.map((c, i) => c * (1 - ratio) + rgb2[i] * ratio)]; [None] when
    [rgb2] is the shorter array (the source then multiplies [undefined]). *)
Fixpoint mixChannels (rgb1 rgb2 : list Z) (ratio : Q) : option (list Q) :=
  match rgb1 with
  | [] => Some []
  | c :: rest1 =>
      match rgb2 with
      | [] => None
      | d :: rest2 =>
          match mixChannels rest1 rest2 ratio with
          | Some mixed =>
              Some ((inject_Z c * (1 - ratio) + inject_Z d * ratio) :: mixed)
          | None => None
          end
      end
  end.

(** [mixColors]; [None] where [hexToRgb] is outside its model. *)
Definition mixColors (color1 color2 : string) (ratio : Q) : option string :=
  match hexToRgb color1, hexToRgb color2 with
  | Some rgb1, Some rgb2 =>
      match mixChannels rgb1 rgb2 ratio with
      | Some mixed => Some (rgbToHex mixed)
      | None => None
      end
  | _, _ => None
  end.

(** [String.prototype.toUpperCase] on the ASCII letters. *)
Definition toUpperAscii (c : ascii) : ascii :=
  let n := N_of_ascii c in
  if ((97 <=? n) && (n <=? 122))%N then ascii_of_N (n - 32) else c.

Fixpoint toUpperCase (s : string) : string :=
  match s with
  | EmptyString => EmptyString
  | String c r => String (toUpperAscii c) (toUpperCase r)
  end.

Definition isAscii (c : ascii) : bool := (N_of_ascii c <? 128)%N.

(** The table of [getColorName]. *)
Definition colorNames : list (string * string) :=
  [ ("#FF0000", "Red"); ("#00FF00", "Lime"); ("#0000FF", "Blue");
    ("#FFFF00", "Yellow"); ("#FF00FF", "Magenta"); ("#00FFFF", "Cyan");
    ("#000000", "Black"); ("#FFFFFF", "White") ]%string.

(** [colorNames[key]] *)
Fixpoint lookupName (table : list (string * string)) (key : string)
    : option string :=
  match table with
  | [] => None
  | (k, v) :: rest => if String.eqb k key then Some v else lookupName rest key
  end.

(** [getColorName], on strings of ASCII characters.  Upper-casing another
    character can produce ASCII letters in the source; the model answers
    [None] on such strings.  The properties that the object inherits have
    names with lower-case letters, so an upper-cased key never finds one. *)
Definition getColorName (color : string) : option string :=
  if forallb isAscii (list_ascii_of_string color) then
    match lookupName colorNames (toUpperCase color) with
    | Some name => Some name
    | None => Some "Unknown"%string
    end
  else None.

(** The classification of [isWarmOrCool], from the hue on. *)
Definition temperatureOfHue (h : Q) : string :=
  if Qle_bool 30 h && Qle_bool h 210 then "Cool" else "Warm".

(** ** pack.ts: formulas on channels and CMYK *)

Definition invalidRgb : string :=
  "Invalid RGB values. Values must be between 0 and 255.".

Definition RGBToCMYK (r g b : Q) : option (Result CMYKColor) :=
  if negb (isValidRgb r g b) then Some (UserVisibleError invalidRgb)
  else
    match rgbToCmyk r g b with
    | Some cmyk => Some (Ok cmyk)
    | None => None
    end.

Definition CMYKToRGB (c m y k : Q) : Result RGBColor :=
  if Qlt_bool c 0 || Qlt_bool 1 c || Qlt_bool m 0 || Qlt_bool 1 m
     || Qlt_bool y 0 || Qlt_bool 1 y || Qlt_bool k 0 || Qlt_bool 1 k then
    UserVisibleError "Invalid CMYK values. All values must be between 0 and 1."
  else Ok (cmykToRgb c m y k).

(** ** pack.ts: analysis formulas *)

Definition ContrastRatio (color1 color2 : string) : option (Result R) :=
  if negb (isValidHexColor color1) || negb (isValidHexColor color2) then
    Some (UserVisibleError invalidHex)
  else
    match calculateContrastRatio color1 color2 with
    | Some ratio => Some (Ok ratio)
    | None => None
    end.

(** The strings ['AA'], ['AAA'] and ['large'], ['small'] as the formulas
    receive them. *)
Definition levelOfString (level : string) : option WCAGLevel :=
  if String.eqb level "AA" then Some AA
  else if String.eqb level "AAA" then Some AAA
  else None.

Definition sizeOfString (size : string) : option TextSize :=
  if String.eqb size "large" then Some large
  else if String.eqb size "small" then Some small
  else None.

Definition invalidLevel : string :=
  "Invalid WCAG level. Please use 'AA' or 'AAA'.".

Definition IsAccessible (foreground background level size : string)
    : option (Result bool) :=
  if negb (isValidHexColor foreground) || negb (isValidHexColor background) then
    Some (UserVisibleError invalidHex)
  else
    match levelOfString level with
    | None => Some (UserVisibleError invalidLevel)
    | Some lv =>
        match sizeOfString size with
        | None =>
            Some (UserVisibleError
                    "Invalid text size. Please use 'large' or 'small'.")
        | Some sz =>
            match checkAccessibility foreground background lv sz with
            | Some answer => Some (Ok answer)
            | None => None
            end
        end
    end.

Definition Rgt_bool (x y : R) : bool := if Rgt_dec x y then true else false.

Definition noTextColor : string := "No sufficiently contrasting color found".

Definition SuggestTextColor (backgroundColor level : string)
    : option (Result string) :=
  if negb (isValidHexColor backgroundColor) then
    Some (UserVisibleError invalidHex)
  else
    match levelOfString level with
    | None => Some (UserVisibleError invalidLevel)
    | Some lv =>
        match calculateContrastRatio backgroundColor STANDARD_COLORS.BLACK,
              calculateContrastRatio backgroundColor STANDARD_COLORS.WHITE with
        | Some blackContrast, Some whiteContrast =>
            let threshold :=
              match lv with
              | AAA => WCAG_CONTRAST_RATIOS.AAA_NORMAL
              | AA => WCAG_CONTRAST_RATIOS.AA_NORMAL
              end in
            Some (Ok
              (if Rge_bool blackContrast threshold
                  && Rgt_bool blackContrast whiteContrast
               then STANDARD_COLORS.BLACK
               else if Rge_bool whiteContrast threshold
               then STANDARD_COLORS.WHITE
               else noTextColor))
        | _, _ => None
        end
    end.

Definition ColorName (color : string) : option string := getColorName color.

(** ** pack.ts: manipulation formulas *)

Definition MixColors (color1 color2 : string) (ratio : Q)
    : option (Result string) :=
  if negb (isValidHexColor color1) || negb (isValidHexColor color2) then
    Some (UserVisibleError invalidHex)
  else if Qlt_bool ratio 0 || Qlt_bool 1 ratio then
    Some (UserVisibleError "Ratio must be between 0 and 1.")
  else
    match mixColors color1 color2 ratio with
    | Some mixed => Some (Ok mixed)
    | None => None
    end.

Definition invalidAmount : string := "Amount must be between 0 and 1.".

Definition Tint (color : string) (amount : Q) : option (Result string) :=
  if negb (isValidHexColor color) then Some (UserVisibleError invalidHex)
  else if Qlt_bool amount 0 || Qlt_bool 1 amount then
    Some (UserVisibleError invalidAmount)
  else
    match mixColors color STANDARD_COLORS.WHITE amount with
    | Some mixed => Some (Ok mixed)
    | None => None
    end.

Definition Shade (color : string) (amount : Q) : option (Result string) :=
  if negb (isValidHexColor color) then Some (UserVisibleError invalidHex)
  else if Qlt_bool amount 0 || Qlt_bool 1 amount then
    Some (UserVisibleError invalidAmount)
  else
    match mixColors color STANDARD_COLORS.BLACK amount with
    | Some mixed => Some (Ok mixed)
    | None => None
    end.

Definition typeOfString (type : string) : option ColorBlindnessType :=
  if String.eqb type "protanopia" then Some protanopia
  else if String.eqb type "deuteranopia" then Some deuteranopia
  else if String.eqb type "tritanopia" then Some tritanopia
  else None.

Definition SimulateColorBlindness (color type : string)
    : option (Result string) :=
  if negb (isValidHexColor color) then Some (UserVisibleError invalidHex)
  else
    match typeOfString type with
    | None =>
        Some (UserVisibleError
          "Invalid color blindness type. Use protanopia, deuteranopia, or tritanopia.")
    | Some t =>
        match hexToRgb color with
        | Some rgb =>
            match simulateColorBlindness (map inject_Z rgb) t with
            | Some simulatedRgb => Some (Ok (rgbToHex (map inject_Z simulatedRgb)))
            | None => None
            end
        | None => None
        end
    end.

(** ** pack.ts: formulas that call the package *)

(** [color.hex], for the formulas whose parameter is itself called [hex]. *)
Definition hexOf (o : Hsluv) : string := hex o.

(** The values [i] of [for (let i = start; i < count; i++)]. *)
Definition loopIndicesFrom (start : nat) (count : Q) : list Z :=
  map Z.of_nat (seq start (Z.to_nat (Qceiling count) - start)).

Section MoreWithHsluv.

Variable lib : HsluvLib.

Definition isWarmOrCool (color : string) : string :=
  let hsluv := set_hex new_Hsluv color in
  let hsluv := hexToHsluv lib hsluv in
  temperatureOfHue (hsluv_h hsluv).

Definition IsWarmOrCool (color : string) : Result string :=
  if negb (isValidHexColor color) then UserVisibleError invalidHex
  else Ok (isWarmOrCool color).

Definition EvaluateColorHarmony (color1 color2 : string) : Result string :=
  if negb (isValidHexColor color1) || negb (isValidHexColor color2) then
    UserVisibleError invalidHex
  else Ok (evaluateColorHarmony lib color1 color2).

Definition ComplementaryColor (hex : string) : Result string :=
  if negb (isValidHexColor hex) then UserVisibleError invalidHex
  else
    let color := set_hex new_Hsluv hex in
    let color := hexToHsluv lib color in
    let color := set_hsluv_h color (rotateHue (hsluv_h color) 180) in
    let color := hsluvToHex lib color in
    Ok (hexOf color).

Definition countError : string := "Count must be between 1 and 20.".

(** One round of the loop of [MonochromaticScheme]. *)
Definition monochromaticStep (baseHue baseSat count : Q)
    (st : Hsluv * list string) (i : Z) : Hsluv * list string :=
  let color := fst st in
  let l := if Qeq_bool count 1 then hsluv_l color
           else (100 / (count - 1)) * inject_Z i in
  let color := set_hsluv color baseHue baseSat l in
  let color := hsluvToHex lib color in
  (color, snd st ++ [hex color]).

Definition MonochromaticScheme (baseColor : string) (count : Q)
    : Result (list string) :=
  if negb (isValidHexColor baseColor) then UserVisibleError invalidHex
  else if Qlt_bool count 1 || Qlt_bool 20 count then UserVisibleError countError
  else
    let color := set_hex new_Hsluv baseColor in
    let color := hexToHsluv lib color in
    let baseHue := hsluv_h color in
    let baseSat := hsluv_s color in
    Ok (snd (fold_left (monochromaticStep baseHue baseSat count)
               (loopIndicesFrom 0 count) (color, []))).

(** [AnalogousScheme]; the angle is optional and defaults to 30. *)
Definition AnalogousScheme (baseColor : string) (count : Q) (angle : option Q)
    : Result (list string) :=
  let angle := match angle with Some a => a | None => 30 end in
  if negb (isValidHexColor baseColor) then UserVisibleError invalidHex
  else if Qlt_bool count 1 || Qlt_bool 20 count then UserVisibleError countError
  else if Qlt_bool angle 1 || Qlt_bool 180 angle then
    UserVisibleError "Angle must be between 1 and 180 degrees."
  else
    let color := set_hex new_Hsluv baseColor in
    let color := hexToHsluv lib color in
    let scheme := [hex color] in
    Ok (snd (fold_left (fun st (_ : Z) => rotateAndPush lib angle st)
               (loopIndicesFrom 1 count) (color, scheme))).

Definition AdjustBrightness (color : string) (adjustment : Q) : Result string :=
  if negb (isValidHexColor color) then UserVisibleError invalidHex
  else
    let hsluv := set_hex new_Hsluv color in
    let hsluv := hexToHsluv lib hsluv in
    let hsluv :=
      set_hsluv hsluv (hsluv_h hsluv) (hsluv_s hsluv)
        (Qmax 0 (Qmin 100 (hsluv_l hsluv + adjustment))) in
    let hsluv := hsluvToHex lib hsluv in
    Ok (hex hsluv).

Definition AdjustSaturation (color : string) (adjustment : Q) : Result string :=
  if negb (isValidHexColor color) then UserVisibleError invalidHex
  else
    let hsluv := set_hex new_Hsluv color in
    let hsluv := hexToHsluv lib hsluv in
    let hsluv :=
      set_hsluv hsluv (hsluv_h hsluv)
        (Qmax 0 (Qmin 100 (hsluv_s hsluv + adjustment))) (hsluv_l hsluv) in
    let hsluv := hsluvToHex lib hsluv in
    Ok (hex hsluv).

End MoreWithHsluv.

(** ** Definitions used to state the further properties *)

(** A byte whose two printed digits are hexadecimal and parse back to it. *)
Definition byteRoundTrips (v : Z) : bool :=
  match padStart2 (toString16 v) with
  | String c1 (String c2 EmptyString) =>
      isHexDigit c1 && isHexDigit c2
      && match parseInt16 (c1, c2) with
         | Some w => (w =? v)%Z
         | None => false
         end
  | _ => false
  end.

(** The table of [getColorName] by channels: the eight corners of the RGB
    cube. *)
Definition cornerNames : list (Z * Z * Z * string) :=
  [ ((255, 0, 0), "Red"); ((0, 255, 0), "Lime"); ((0, 0, 255), "Blue");
    ((255, 255, 0), "Yellow"); ((255, 0, 255), "Magenta");
    ((0, 255, 255), "Cyan"); ((0, 0, 0), "Black");
    ((255, 255, 255), "White") ]%Z%string.

Fixpoint lookupCorner (table : list (Z * Z * Z * string)) (r g b : Z)
    : option string :=
  match table with
  | [] => None
  | ((kr, kg, kb), name) :: rest =>
      if ((kr =? r) && (kg =? g) && (kb =? b))%Z then Some name
      else lookupCorner rest r g b
  end.

(** The name of a colour given by its channels. *)
Definition nameOfChannels (r g b : Z) : string :=
  match lookupCorner cornerNames r g b with
  | Some name => name
  | None => "Unknown"
  end.

(** A byte written with two upper-case hexadecimal digits, and a colour
    written that way. *)
Definition upperDigitChar (d : Z) : ascii :=
  if (d <? 10)%Z then ascii_of_N (Z.to_N (48 + d))
  else ascii_of_N (Z.to_N (55 + d)).

Definition upperByte (v : Z) : ascii * ascii :=
  (upperDigitChar (v / 16), upperDigitChar (v mod 16)).

Definition upperHex (r g b : Z) : string :=
  String "#"
    (String (fst (upperByte r)) (String (snd (upperByte r))
    (String (fst (upperByte g)) (String (snd (upperByte g))
    (String (fst (upperByte b)) (String (snd (upperByte b))
     EmptyString)))))).

Definition pairEqb (x y : ascii * ascii) : bool :=
  Ascii.eqb (fst x) (fst y) && Ascii.eqb (snd x) (snd y).

(** The hue after [i] rotations by [angle]. *)
Definition iterHue (h angle : Q) (i : nat) : Q :=
  Nat.iter i (fun x => rotateHue x angle) h.

(** The labels of [harmonyOfHues], from the folded hue difference on. *)
Definition harmonyOfDistance (hueDiff : Q) : string :=
  if Qlt_bool hueDiff 30 then "Analogous (harmonious)"
  else if Qlt_bool (Qabs (hueDiff - 180)) 30 then "Complementary (high contrast)"
  else if Qlt_bool (Qabs (hueDiff - 120)) 30 then "Triadic (balanced)"
  else if Qlt_bool (Qabs (hueDiff - 90)) 30 then "Square (vibrant)"
  else "Discordant (use with caution)".

(** [Math.max(0, Math.min(100, x))] *)
Definition clamp100 (x : Q) : Q := Qmax 0 (Qmin 100 x).

(** * Properties *)

(** ** The string helpers on examples *)

Example hexToRgb_red : hexToRgb "#FF0000" = Some [255; 0; 0]%Z.
Proof. reflexivity. Qed.

Example rgbToHex_orange :
  rgbToHex [inject_Z 255; inject_Z 128; inject_Z 7] = "#ff8007"%string.
Proof. reflexivity. Qed.

Example toString16_wide :
  toString16 256 = "100"%string /\ toString16 (-1) = "-1"%string.
Proof. split; reflexivity. Qed.

Example gradient_red_green :
  LinearGradient "#FF0000" "#00FF00" 5
  = Some (Ok ["#ff0000"; "#bf4000"; "#808000"; "#40bf00"; "#00ff00"]%string).
Proof. vm_compute. reflexivity. Qed.

(** ** Rounding and comparison lemmas *)

Local Open Scope Q_scope.

Lemma Qlt_bool_iff (x y : Q) : Qlt_bool x y = true <-> x < y.
Proof.
  unfold Qlt_bool. rewrite negb_true_iff.
  split; intro H.
  - apply Qnot_le_lt. intro Hle. apply Qle_bool_iff in Hle. congruence.
  - destruct (Qle_bool y x) eqn:E; [|reflexivity].
    apply Qle_bool_iff in E. exfalso. apply (Qlt_not_le _ _ H E).
Qed.

Lemma Qlt_bool_false_iff (x y : Q) : Qlt_bool x y = false <-> y <= x.
Proof.
  unfold Qlt_bool. rewrite negb_false_iff. apply Qle_bool_iff.
Qed.

Lemma Math_round_inject_Z (z : Z) : Math_round (inject_Z z) = z.
Proof.
  unfold Math_round.
  assert (Hlo : (z <= Qfloor (inject_Z z + (1 # 2)))%Z).
  { rewrite <- (Qfloor_Z z) at 1. apply Qfloor_resp_le.
    rewrite <- (Qplus_0_r (inject_Z z)) at 1.
    apply Qplus_le_r. discriminate. }
  assert (Hhi : (Qfloor (inject_Z z + (1 # 2)) < z + 1)%Z).
  { rewrite Zlt_Qlt. eapply Qle_lt_trans; [apply Qfloor_le|].
    rewrite inject_Z_plus. apply Qplus_lt_r. reflexivity. }
  lia.
Qed.

Lemma Math_round_between (lo hi : Z) (x : Q) :
  inject_Z lo <= x -> x <= inject_Z hi -> (lo <= Math_round x <= hi)%Z.
Proof.
  intros Hlo Hhi. unfold Math_round. split.
  - rewrite <- (Qfloor_Z lo). apply Qfloor_resp_le.
    apply Qle_trans with x; [exact Hlo|].
    rewrite <- (Qplus_0_r x) at 1. apply Qplus_le_r. discriminate.
  - assert (H : (Qfloor (x + (1 # 2)) < hi + 1)%Z); [|lia].
    rewrite Zlt_Qlt. eapply Qle_lt_trans; [apply Qfloor_le|].
    rewrite inject_Z_plus.
    apply Qle_lt_trans with (inject_Z hi + (1 # 2)).
    + apply Qplus_le_l. exact Hhi.
    + apply Qplus_lt_r. reflexivity.
Qed.

Lemma Math_round_comp (x y : Q) : x == y -> Math_round x = Math_round y.
Proof.
  intro H. unfold Math_round. apply Qfloor_comp. rewrite H. reflexivity.
Qed.

(** ** Dichromacy simulation *)

Lemma matrices_rows_stochastic (type : ColorBlindnessType) :
  Forall stochasticRow (matrices type).
Proof.
  destruct type; repeat constructor; try discriminate; reflexivity.
Qed.

Lemma convex_channel (a b c r g bl : Q) :
  0 <= a -> 0 <= b -> 0 <= c -> a + b + c == 1 ->
  0 <= r <= 255 -> 0 <= g <= 255 -> 0 <= bl <= 255 ->
  (0 <= Math_round (r * a + g * b + bl * c) <= 255)%Z.
Proof.
  intros Ha Hb Hc Hsum [Hr0 Hr1] [Hg0 Hg1] [Hb0 Hb1].
  apply Math_round_between.
  - change (inject_Z 0) with 0.
    assert (H0 : forall x y, 0 <= x -> 0 <= y -> 0 <= x + y).
    { intros x y Hx Hy. rewrite <- (Qplus_0_r 0). apply Qplus_le_compat; assumption. }
    repeat apply H0; apply Qmult_le_0_compat; assumption.
  - change (inject_Z 255) with 255.
    assert (E : 255 == 255 * a + 255 * b + 255 * c).
    { rewrite <- !Qmult_plus_distr_r, Hsum. reflexivity. }
    rewrite E.
    repeat apply Qplus_le_compat; apply Qmult_le_compat_r; assumption.
Qed.

(** C10.  Whatever the dichromacy type, a triple of channels in [0,255] is
    sent to three integers in [0,255]: each matrix row has non-negative
    entries that add up to exactly 1, so the unclamped rounded products stay
    in range. *)
Theorem simulateColorBlindness_in_range
    (type : ColorBlindnessType) (r g b : Q) :
  0 <= r <= 255 -> 0 <= g <= 255 -> 0 <= b <= 255 ->
  Forall stochasticRow (matrices type) /\
  exists r' g' b' : Z,
    simulateColorBlindness [r; g; b] type = Some [r'; g'; b'] /\
    (0 <= r' <= 255)%Z /\ (0 <= g' <= 255)%Z /\ (0 <= b' <= 255)%Z.
Proof.
  intros Hr Hg Hb. split; [apply matrices_rows_stochastic|].
  unfold simulateColorBlindness. cbv [map].
  eexists _, _, _. split; [reflexivity|].
  destruct type; cbv [matrices entry nth];
    repeat split; apply convex_channel; try assumption;
      try discriminate; reflexivity.
Qed.

Lemma simulateColorBlindness_in_range_witness :
  0 <= 255 <= 255 /\ 0 <= 0 <= 255 /\
  exists r' g' b' : Z,
    simulateColorBlindness [255; 0; 0] protanopia = Some [r'; g'; b'] /\
    (0 <= r' <= 255)%Z /\ (0 <= g' <= 255)%Z /\ (0 <= b' <= 255)%Z.
Proof.
  assert (H255 : 0 <= 255 <= 255) by (split; discriminate).
  assert (H0 : 0 <= 0 <= 255) by (split; discriminate).
  split; [exact H255|]. split; [exact H0|].
  exact (proj2 (simulateColorBlindness_in_range protanopia 255 0 0 H255 H0 H0)).
Defined.

Example simulate_red_protanopia :
  simulateColorBlindness [255; 0; 0] protanopia = Some [145; 142; 0]%Z.
Proof. vm_compute. reflexivity. Qed.

(** ** CMYK *)

Lemma round2_comp (x y : Q) : x == y -> round2 x == round2 y.
Proof.
  intro H. unfold round2.
  rewrite (Math_round_comp (x * 100) (y * 100)); [reflexivity|].
  rewrite H. reflexivity.
Qed.

Lemma round2_unit (x : Q) : 0 <= x <= 1 -> 0 <= round2 x <= 1.
Proof.
  intros [H0 H1]. unfold round2.
  assert (H : (0 <= Math_round (x * 100) <= 100)%Z).
  { apply Math_round_between.
    - change (inject_Z 0) with (0 * 100). apply Qmult_le_compat_r; [exact H0|discriminate].
    - change (inject_Z 100) with (1 * 100). apply Qmult_le_compat_r; [exact H1|discriminate]. }
  destruct H as [Hlo Hhi]. rewrite Zle_Qle in Hlo, Hhi.
  split.
  - apply Qle_shift_div_l; [reflexivity|]. rewrite Qmult_0_l. exact Hlo.
  - apply Qle_shift_div_r; [reflexivity|]. rewrite Qmult_1_l. exact Hhi.
Qed.

Lemma round2_zero (x : Q) : x == 0 -> round2 x == 0.
Proof. intro H. rewrite (round2_comp _ _ H). reflexivity. Qed.

(** The provisional component [1 - channel / 255]. *)
Lemma provisional_unit (x : Q) : 0 <= x <= 255 -> 0 <= 1 - x / 255 <= 1.
Proof.
  intros [H0 H1].
  assert (Hd : 0 <= x / 255 <= 1).
  { split.
    - apply Qle_shift_div_l; [reflexivity|]. rewrite Qmult_0_l. exact H0.
    - apply Qle_shift_div_r; [reflexivity|]. rewrite Qmult_1_l. exact H1. }
  destruct Hd. set (d := x / 255) in *. split; lra.
Qed.

Lemma rescaled_unit (v k : Q) : k <= v -> v <= 1 -> k < 1 ->
  0 <= (v - k) / (1 - k) <= 1.
Proof.
  intros Hkv Hv Hk. split.
  - apply Qle_shift_div_l; lra.
  - apply Qle_shift_div_r; lra.
Qed.

Lemma rescaled_zero (v k : Q) : v == k -> (v - k) / (1 - k) == 0.
Proof.
  intro H. unfold Qdiv. setoid_replace (v - k) with 0 by lra.
  apply Qmult_0_l.
Qed.

Lemma Qmin3_cases (c m y : Q) :
  let k := Qmin c (Qmin m y) in
  k <= c /\ k <= m /\ k <= y /\ (c == k \/ m == k \/ y == k).
Proof.
  cbv zeta.
  destruct (Q.min_spec m y) as [[H1 E1]|[H1 E1]];
  destruct (Q.min_spec c (Qmin m y)) as [[H2 E2]|[H2 E2]];
  rewrite E2; rewrite ?E1 in *;
  repeat split; lra.
Qed.

Section RgbToCmyk.

Variables r g b : Q.
Hypothesis Hr : 0 <= r <= 255.
Hypothesis Hg : 0 <= g <= 255.
Hypothesis Hb : 0 <= b <= 255.

Let c0 := 1 - r / 255.
Let m0 := 1 - g / 255.
Let y0 := 1 - b / 255.
Let k0 := Qmin c0 (Qmin m0 y0).

(** What [rgbToCmyk] returns when the black component is below 1. *)
Lemma rgbToCmyk_general :
  Qeq_bool k0 1 = false ->
  rgbToCmyk r g b =
  Some {| cmyk_c := round2 ((c0 - k0) / (1 - k0));
          cmyk_m := round2 ((m0 - k0) / (1 - k0));
          cmyk_y := round2 ((y0 - k0) / (1 - k0));
          cmyk_k := round2 k0 |}.
Proof.
  intro Hk. unfold rgbToCmyk. fold c0 m0 y0. fold k0. rewrite Hk.
  assert (Hne : Qeq_bool (1 - k0) 0 = false).
  { destruct (Qeq_bool (1 - k0) 0) eqn:E; [|reflexivity].
    apply Qeq_bool_iff in E.
    assert (E1 : k0 == 1) by lra.
    apply Qeq_bool_iff in E1. congruence. }
  unfold js_div. rewrite Hne. reflexivity.
Qed.

Lemma rgbToCmyk_black :
  Qeq_bool k0 1 = true ->
  rgbToCmyk r g b =
  Some {| cmyk_c := 0; cmyk_m := 0; cmyk_y := 0; cmyk_k := 1 |}.
Proof.
  intro Hk. unfold rgbToCmyk. fold c0 m0 y0. fold k0. rewrite Hk. reflexivity.
Qed.

Lemma black_iff_all_zero : k0 == 1 <-> (r == 0 /\ g == 0 /\ b == 0).
Proof.
  destruct (Qmin3_cases c0 m0 y0) as (Hc & Hm & Hy & _). fold k0 in Hc, Hm, Hy.
  destruct (provisional_unit r Hr) as [_ Hc1].
  destruct (provisional_unit g Hg) as [_ Hm1].
  destruct (provisional_unit b Hb) as [_ Hy1].
  fold c0 in Hc1. fold m0 in Hm1. fold y0 in Hy1.
  assert (Hdiv : forall x, 1 - x / 255 == 1 <-> x == 0).
  { intro x. split; intro H.
    - assert (Hx : x / 255 == 0) by (set (d := x / 255) in *; lra).
      setoid_replace x with (x / 255 * 255) by (field; discriminate).
      rewrite Hx. reflexivity.
    - rewrite H. reflexivity. }
  split.
  - intro Hk. repeat split; apply Hdiv.
    + fold c0. lra.
    + fold m0. lra.
    + fold y0. lra.
  - intros (E1 & E2 & E3).
    apply Hdiv in E1, E2, E3. fold c0 in E1. fold m0 in E2. fold y0 in E3.
    unfold k0. rewrite E1, E2, E3. reflexivity.
Qed.

End RgbToCmyk.

(** C4.  On channels in [0,255], [rgbToCmyk] returns a result (no division by
    zero is performed), its four components lie in [0,1], one of c, m, y is
    0, and on black it is the literal (0, 0, 0, 1) of the short-circuit. *)
Theorem rgbToCmyk_invariant (r g b : Q) :
  0 <= r <= 255 -> 0 <= g <= 255 -> 0 <= b <= 255 ->
  exists cmyk : CMYKColor,
    rgbToCmyk r g b = Some cmyk /\
    0 <= cmyk_c cmyk <= 1 /\ 0 <= cmyk_m cmyk <= 1 /\
    0 <= cmyk_y cmyk <= 1 /\ 0 <= cmyk_k cmyk <= 1 /\
    (cmyk_c cmyk == 0 \/ cmyk_m cmyk == 0 \/ cmyk_y cmyk == 0) /\
    (r == 0 /\ g == 0 /\ b == 0 ->
     cmyk = {| cmyk_c := 0; cmyk_m := 0; cmyk_y := 0; cmyk_k := 1 |}).
Proof.
  intros Hr Hg Hb.
  set (c0 := 1 - r / 255). set (m0 := 1 - g / 255). set (y0 := 1 - b / 255).
  set (k0 := Qmin c0 (Qmin m0 y0)).
  destruct (Qeq_bool k0 1) eqn:Hk.
  - eexists. split; [apply rgbToCmyk_black; exact Hk|]. cbn.
    repeat split; try discriminate; try (left; reflexivity).
  - destruct (Qmin3_cases c0 m0 y0) as (Hc & Hm & Hy & Hmin).
    fold k0 in Hc, Hm, Hy, Hmin.
    destruct (provisional_unit r Hr) as [Hc0 Hc1].
    destruct (provisional_unit g Hg) as [Hm0 Hm1].
    destruct (provisional_unit b Hb) as [Hy0 Hy1].
    fold c0 in Hc0, Hc1. fold m0 in Hm0, Hm1. fold y0 in Hy0, Hy1.
    assert (Hk1 : k0 < 1).
    { apply Qle_lteq in Hc1. destruct (Qlt_le_dec k0 1) as [H|H]; [exact H|].
      exfalso. assert (E : k0 == 1) by lra.
      apply Qeq_bool_iff in E. congruence. }
    assert (Hk0 : 0 <= k0).
    { destruct Hmin as [E|[E|E]]; rewrite <- E; assumption. }
    eexists. split; [apply rgbToCmyk_general; exact Hk|]. cbn.
    fold c0 m0 y0. fold k0.
    split; [apply round2_unit, rescaled_unit; assumption|].
    split; [apply round2_unit, rescaled_unit; assumption|].
    split; [apply round2_unit, rescaled_unit; assumption|].
    split; [apply round2_unit; split; [assumption|lra]|].
    split.
    + destruct Hmin as [E|[E|E]]; [left|right; left|right; right];
        apply round2_zero, rescaled_zero; exact E.
    + intro Hz. exfalso.
      apply (black_iff_all_zero r g b Hr Hg Hb) in Hz. fold c0 m0 y0 in Hz. fold k0 in Hz.
      apply Qeq_bool_iff in Hz. congruence.
Qed.

Lemma rgbToCmyk_invariant_witness :
  (0 <= 255 <= 255 /\ 0 <= 128 <= 255 /\ 0 <= 0 <= 255) /\
  exists cmyk : CMYKColor,
    rgbToCmyk 255 128 0 = Some cmyk /\
    0 <= cmyk_c cmyk <= 1 /\ 0 <= cmyk_m cmyk <= 1 /\
    0 <= cmyk_y cmyk <= 1 /\ 0 <= cmyk_k cmyk <= 1 /\
    (cmyk_c cmyk == 0 \/ cmyk_m cmyk == 0 \/ cmyk_y cmyk == 0) /\
    (255 == 0 /\ 128 == 0 /\ 0 == 0 ->
     cmyk = {| cmyk_c := 0; cmyk_m := 0; cmyk_y := 0; cmyk_k := 1 |}).
Proof.
  assert (H1 : 0 <= 255 <= 255) by (split; discriminate).
  assert (H2 : 0 <= 128 <= 255) by (split; discriminate).
  assert (H3 : 0 <= 0 <= 255) by (split; discriminate).
  split; [auto|].
  exact (rgbToCmyk_invariant 255 128 0 H1 H2 H3).
Defined.

Example rgbToCmyk_black_literal :
  rgbToCmyk 0 0 0 = Some {| cmyk_c := 0; cmyk_m := 0; cmyk_y := 0; cmyk_k := 1 |}.
Proof. reflexivity. Qed.

(** *** The round trip RGB -> CMYK -> RGB *)

#[local] Instance Math_round_Proper : Proper (Qeq ==> eq) Math_round.
Proof. intros x y H. apply Math_round_comp, H. Qed.

#[local] Instance round2_Proper : Proper (Qeq ==> Qeq) round2.
Proof. intros x y H. apply round2_comp, H. Qed.

Lemma rangeZ_forallb (n : nat) (f : Z -> bool) :
  forallb f (rangeZ n) = true ->
  forall z : Z, (0 <= z < Z.of_nat n)%Z -> f z = true.
Proof.
  intros H z Hz. rewrite forallb_forall in H. apply H.
  unfold rangeZ. apply in_map_iff. exists (Z.to_nat z). split; [lia|].
  apply in_seq. lia.
Qed.

Lemma roundTripChannel_all :
  forallb (fun top => forallb (fun x => (top <? x)%Z || withinTwo top x) (rangeZ 256))
    (rangeZ 256) = true.
Proof. vm_compute. reflexivity. Qed.

Lemma roundTripChannel_within_two (x top : Z) :
  (0 <= x <= top)%Z -> (top <= 255)%Z ->
  (Z.abs (roundTripChannel x top - x) <= 2)%Z.
Proof.
  intros Hx Htop.
  pose proof (rangeZ_forallb 256 _ roundTripChannel_all top ltac:(lia)) as H.
  cbv beta in H.
  pose proof (rangeZ_forallb 256 _ H x ltac:(lia)) as H'.
  cbv beta in H'. apply orb_true_iff in H'. destruct H' as [H'|H'].
  - apply Z.ltb_lt in H'. lia.
  - unfold withinTwo in H'. apply Z.leb_le in H'. exact H'.
Qed.

Lemma inject_Z_le_255 (x y : Z) :
  1 - inject_Z x / 255 <= 1 - inject_Z y / 255 -> (y <= x)%Z.
Proof.
  intro H. rewrite Zle_Qle.
  setoid_replace (inject_Z y) with (inject_Z y / 255 * 255) by (field; discriminate).
  setoid_replace (inject_Z x) with (inject_Z x / 255 * 255) by (field; discriminate).
  set (p := inject_Z x / 255) in *. set (q := inject_Z y / 255) in *. lra.
Qed.

(** The black component of [rgbToCmyk] comes from a largest channel. *)
Lemma black_from_top_channel (r g b : Z) :
  exists top : Z,
    (top = r \/ top = g \/ top = b) /\
    (r <= top)%Z /\ (g <= top)%Z /\ (b <= top)%Z /\
    Qmin (1 - inject_Z r / 255)
         (Qmin (1 - inject_Z g / 255) (1 - inject_Z b / 255))
    == 1 - inject_Z top / 255.
Proof.
  destruct (Qmin3_cases (1 - inject_Z r / 255) (1 - inject_Z g / 255)
              (1 - inject_Z b / 255)) as (Hc & Hm & Hy & [E|[E|E]]);
    [exists r|exists g|exists b];
    rewrite <- E in Hc, Hm, Hy;
    (repeat split;
     [tauto | try apply inject_Z_le_255; try assumption; lia ..
      | symmetry; exact E]).
Qed.

Lemma inject_Z_range (x : Z) :
  (0 <= x <= 255)%Z -> 0 <= inject_Z x <= 255.
Proof.
  intros [H0 H1]. rewrite Zle_Qle in H0, H1. split; assumption.
Qed.

(** C3, as the code has it.  For integer channels in [0,255] the composition
    of [rgbToCmyk] and [cmykToRgb] returns channels that differ from the
    originals by at most 2. *)
Theorem cmyk_round_trip_within_two (r g b : Z) :
  (0 <= r <= 255)%Z -> (0 <= g <= 255)%Z -> (0 <= b <= 255)%Z ->
  exists out : RGBColor,
    cmykRoundTrip r g b = Some out /\
    (Z.abs (rgb_r out - r) <= 2)%Z /\
    (Z.abs (rgb_g out - g) <= 2)%Z /\
    (Z.abs (rgb_b out - b) <= 2)%Z.
Proof.
  intros Hr Hg Hb.
  pose proof (inject_Z_range r Hr) as Qr.
  pose proof (inject_Z_range g Hg) as Qg.
  pose proof (inject_Z_range b Hb) as Qb.
  unfold cmykRoundTrip.
  set (c0 := 1 - inject_Z r / 255). set (m0 := 1 - inject_Z g / 255).
  set (y0 := 1 - inject_Z b / 255). set (k0 := Qmin c0 (Qmin m0 y0)).
  destruct (Qeq_bool k0 1) eqn:Hk.
  - rewrite (rgbToCmyk_black _ _ _ Hk). eexists. split; [reflexivity|].
    apply Qeq_bool_iff in Hk.
    apply (black_iff_all_zero _ _ _ Qr Qg Qb) in Hk.
    destruct Hk as (Er & Eg & Eb).
    apply (proj1 (inject_Z_injective r 0)) in Er.
    apply (proj1 (inject_Z_injective g 0)) in Eg.
    apply (proj1 (inject_Z_injective b 0)) in Eb.
    cbn. rewrite Er, Eg, Eb. repeat split; lia.
  - rewrite (rgbToCmyk_general _ _ _ Hk). eexists. split; [reflexivity|].
    fold c0 m0 y0. fold k0. cbn [cmykToRgb rgb_r rgb_g rgb_b cmyk_c cmyk_m cmyk_y cmyk_k].
    destruct (black_from_top_channel r g b)
      as (top & Hin & Hrt & Hgt & Hbt & Etop).
    fold c0 m0 y0 in Etop. fold k0 in Etop.
    assert (Htop : (top <= 255)%Z) by lia.
    rewrite !Etop.
    repeat split.
    + apply (roundTripChannel_within_two r top); lia.
    + apply (roundTripChannel_within_two g top); lia.
    + apply (roundTripChannel_within_two b top); lia.
Qed.

Lemma cmyk_round_trip_within_two_witness :
  exists out : RGBColor,
    cmykRoundTrip 65 64 64 = Some out /\
    (Z.abs (rgb_r out - 65) <= 2)%Z /\
    (Z.abs (rgb_g out - 64) <= 2)%Z /\
    (Z.abs (rgb_b out - 64) <= 2)%Z.
Proof.
  apply (cmyk_round_trip_within_two 65 64 64); lia.
Defined.

(** C3, as the claim states it, fails: the colour (254, 253, 0) comes back as
    (255, 255, 0), its green channel off by 2. *)
Lemma cmyk_round_trip_not_within_one :
  cmykRoundTrip 254 253 0 = Some {| rgb_r := 255; rgb_g := 255; rgb_b := 0 |}
  /\ (1 < Z.abs (255 - 253))%Z.
Proof. split; [vm_compute; reflexivity | reflexivity]. Qed.

(** ** Hue arithmetic *)

Ltac qabs_cases t :=
  let Hs := fresh "Hsign" in
  let Ha := fresh "Habs" in
  destruct (Qlt_le_dec t 0) as [Hs|Hs];
  [ pose proof (Qabs_neg t (Qlt_le_weak _ _ Hs)) as Ha
  | pose proof (Qabs_pos t Hs) as Ha ].

Ltac qlt_bool_props :=
  repeat match goal with
  | H : Qlt_bool _ _ = true |- _ => apply Qlt_bool_iff in H
  | H : Qlt_bool _ _ = false |- _ => apply Qlt_bool_false_iff in H
  end.

(** The folded hue difference of [evaluateColorHarmony] is the circular
    distance. *)
Lemma folded_difference (a : Q) :
  (if Qlt_bool 180 a then 360 - a else a) == Qmin a (360 - a).
Proof.
  destruct (Qlt_bool 180 a) eqn:E; qlt_bool_props;
    destruct (Q.min_spec a (360 - a)) as [[H1 H2]|[H1 H2]]; lra.
Qed.

Lemma circularDistance_le_180 (h1 h2 : Q) : circularDistance h1 h2 <= 180.
Proof.
  unfold circularDistance. set (a := Qabs (h1 - h2)).
  destruct (Q.min_spec a (360 - a)) as [[H1 H2]|[H1 H2]]; lra.
Qed.

Section Harmony.

Variable lib : HsluvLib.

(** C5, as the code has it.  [evaluateColorHarmony] classifies the circular
    distance d of the two hues by the first window that holds, in the order
    0, 180, 120, 90 and with strict bounds: d < 30 analogous, 150 < d
    complementary, 90 < d < 150 triadic, 60 < d <= 90 square, and discordant
    on what is left (30 <= d <= 60 and d = 150).  In particular d = 180 is
    complementary and d = 0 analogous. *)
Theorem evaluateColorHarmony_windows (color1 color2 : string) :
  let d := circularDistance (hsl_h (lib_hexToHsluv lib color1))
                            (hsl_h (lib_hexToHsluv lib color2)) in
  let result := evaluateColorHarmony lib color1 color2 in
  d <= 180 /\
  (d < 30 -> result = "Analogous (harmonious)"%string) /\
  (150 < d -> result = "Complementary (high contrast)"%string) /\
  (90 < d /\ d < 150 -> result = "Triadic (balanced)"%string) /\
  (60 < d /\ d <= 90 -> result = "Square (vibrant)"%string) /\
  ((30 <= d /\ d <= 60) \/ d == 150 ->
   result = "Discordant (use with caution)"%string) /\
  (d == 180 -> result = "Complementary (high contrast)"%string) /\
  (d == 0 -> result = "Analogous (harmonious)"%string).
Proof.
  intros d result.
  split; [apply circularDistance_le_180|].
  subst result. unfold evaluateColorHarmony, harmonyOfHues.
  cbn [hsluv_h hexToHsluv set_hsluv set_hex hex new_Hsluv].
  unfold circularDistance in d.
  set (a := Qabs (hsl_h (lib_hexToHsluv lib color1)
                  - hsl_h (lib_hexToHsluv lib color2))) in *.
  pose proof (folded_difference a) as Hfold. fold d in Hfold.
  pose proof (circularDistance_le_180 (hsl_h (lib_hexToHsluv lib color1))
                (hsl_h (lib_hexToHsluv lib color2))) as Hd.
  unfold circularDistance in Hd. fold a in Hd. fold d in Hd.
  set (x := if Qlt_bool 180 a then 360 - a else a) in *.
  clearbody x d. clear a.
  qabs_cases (x - 180); qabs_cases (x - 120); qabs_cases (x - 90);
  repeat split; intros;
  repeat match goal with
         | H : _ /\ _ |- _ => destruct H
         | H : _ \/ _ |- _ => destruct H
         end;
  repeat match goal with
         | |- context [if ?b then _ else _] => destruct b eqn:?
         end;
  qlt_bool_props;
  first [reflexivity | exfalso; lra].
Qed.

End Harmony.

Example harmony_complementary_at_180 :
  harmonyOfHues 10 190 = "Complementary (high contrast)"%string
  /\ circularDistance 10 190 == 180.
Proof. split; reflexivity. Qed.

Example harmony_discordant_at_150 :
  harmonyOfHues 0 150 = "Discordant (use with caution)"%string
  /\ harmonyOfHues 0 30 = "Discordant (use with caution)"%string.
Proof. split; reflexivity. Qed.

(** C5, as the claim states it, fails: at a distance of 100 degrees the
    nearest target is 90 (square), and the code answers triadic, because the
    window of 120 is tried before the window of 90. *)
Lemma harmony_not_by_nearest_target :
  circularDistance 0 100 == 100 /\
  harmonyByNearestTarget (circularDistance 0 100) = "Square (vibrant)"%string /\
  harmonyOfHues 0 100 = "Triadic (balanced)"%string.
Proof. repeat split. Qed.

(** ** Reverse conversions and their validation *)

Lemma isValidHsluv_iff (h s l : Q) :
  isValidHsluv h s l = true <->
  (0 <= h <= 360 /\ 0 <= s <= 100 /\ 0 <= l <= 100).
Proof.
  unfold isValidHsluv. rewrite !andb_true_iff, !Qle_bool_iff. tauto.
Qed.

Lemma isValidHpluv_iff (h p l : Q) :
  isValidHpluv h p l = true <->
  (0 <= h <= 360 /\ 0 <= p <= 100 /\ 0 <= l <= 100).
Proof.
  unfold isValidHpluv. rewrite !andb_true_iff, !Qle_bool_iff. tauto.
Qed.

(** C2, as the code has it.  [HsluvToHex] and [HpluvToHex] return a colour
    exactly when the hue is in [0,360] and the other two arguments are in
    [0,100]; the colour is the package's conversion of the arguments as they
    were given, the hue not normalised; on every other input, a hue below 0
    or above 360 included, they throw a [UserVisibleError]. *)
Theorem reverse_conversions_validate (lib : HsluvLib) (h s l : Q) :
  ((0 <= h <= 360 /\ 0 <= s <= 100 /\ 0 <= l <= 100) ->
   HsluvToHex lib h s l
   = Ok (lib_hsluvToHex lib {| hsl_h := h; hsl_s := s; hsl_l := l |})
   /\ HpluvToHex lib h s l
   = Ok (lib_hpluvToHex lib {| hpl_h := h; hpl_p := s; hpl_l := l |}))
  /\
  (~ (0 <= h <= 360 /\ 0 <= s <= 100 /\ 0 <= l <= 100) ->
   HsluvToHex lib h s l
   = UserVisibleError
       "Invalid HSLuv values. Hue: 0-360, Saturation and Lightness: 0-100."
   /\ HpluvToHex lib h s l
   = UserVisibleError
       "Invalid HPLuv values. Hue: 0-360, Percent and Lightness: 0-100.").
Proof.
  unfold HsluvToHex, HpluvToHex. split; intro H.
  - rewrite (proj2 (isValidHsluv_iff h s l) H).
    rewrite (proj2 (isValidHpluv_iff h s l) H). split; reflexivity.
  - destruct (isValidHsluv h s l) eqn:E1.
    { exfalso. apply H, isValidHsluv_iff, E1. }
    destruct (isValidHpluv h s l) eqn:E2.
    { exfalso. apply H, isValidHpluv_iff, E2. }
    split; reflexivity.
Qed.

Example HsluvToHex_accepts_360 (lib : HsluvLib) :
  HsluvToHex lib 360 50 50
  = Ok (lib_hsluvToHex lib {| hsl_h := 360; hsl_s := 50; hsl_l := 50 |}).
Proof. reflexivity. Qed.

(** C2, as the claim states it, fails: a hue of -10 and a hue of 370 are
    rejected by both reverse conversions, whatever the package computes. *)
Lemma reverse_conversions_reject_hue :
  isValidHsluv (-10) 50 50 = false /\
  isValidHpluv 370 50 50 = false /\
  (forall lib : HsluvLib,
     HsluvToHex lib (-10) 50 50
     = UserVisibleError
         "Invalid HSLuv values. Hue: 0-360, Saturation and Lightness: 0-100."
     /\ HsluvToHex lib 370 50 50
     = UserVisibleError
         "Invalid HSLuv values. Hue: 0-360, Saturation and Lightness: 0-100."
     /\ HpluvToHex lib (-10) 50 50
     = UserVisibleError
         "Invalid HPLuv values. Hue: 0-360, Percent and Lightness: 0-100."
     /\ HpluvToHex lib 370 50 50
     = UserVisibleError
         "Invalid HPLuv values. Hue: 0-360, Percent and Lightness: 0-100.").
Proof. repeat split. Qed.

(** ** Hue rotation *)

Lemma rotateHue_congruent (h a : Q) : congruent360 (rotateHue h a - h) a.
Proof.
  unfold rotateHue, js_rem.
  exists (- Qtrunc ((h + a) / 360))%Z.
  rewrite inject_Z_opp. ring.
Qed.

Lemma congruent360_trans_sum (x y a b : Q) :
  congruent360 x a -> congruent360 y b -> congruent360 (x + y) (a + b).
Proof.
  intros [k Hk] [j Hj]. exists (k + j)%Z.
  rewrite inject_Z_plus, Hk, Hj. ring.
Qed.

Lemma congruent360_turn (x a : Q) :
  congruent360 x a -> congruent360 (- x) (360 - a).
Proof.
  intros [k Hk]. exists (- k - 1)%Z.
  unfold Z.sub. rewrite inject_Z_plus, !inject_Z_opp, Hk.
  change (inject_Z 1) with 1. ring.
Qed.

(** A rotation of a hue in [0,360) by an angle in [0,360] wraps at most
    once. *)
Lemma rotateHue_cases (h a : Q) :
  0 <= h < 360 -> 0 <= a <= 360 ->
  (h + a < 360 /\ rotateHue h a == h + a) \/
  (360 <= h + a /\ rotateHue h a == h + a - 360).
Proof.
  intros [Hh0 Hh1] [Ha0 Ha1].
  unfold rotateHue, js_rem, Qtrunc.
  set (y := (h + a) / 360).
  assert (Ey : h + a == y * 360) by (unfold y; field).
  assert (Hy0 : 0 <= y) by lra.
  assert (Hy2 : y < 2) by lra.
  rewrite (proj2 (Qle_bool_iff 0 y) Hy0).
  pose proof (Qfloor_le y) as Hf1. pose proof (Qlt_floor y) as Hf2.
  rewrite inject_Z_plus in Hf2. change (inject_Z 1) with 1 in Hf2.
  assert (Hk : (Qfloor y = 0 \/ Qfloor y = 1)%Z).
  { assert (Hlt : (Qfloor y < 2)%Z).
    { rewrite Zlt_Qlt. change (inject_Z 2) with 2. lra. }
    assert (Hgt : (-1 < Qfloor y)%Z).
    { rewrite Zlt_Qlt. change (inject_Z (-1)) with (-1). lra. }
    lia. }
  destruct Hk as [Hk|Hk]; rewrite Hk in *.
  - left. change (inject_Z 0) with 0 in *. split; lra.
  - right. change (inject_Z 1) with 1 in *. split; lra.
Qed.

Lemma rotateHue_range (h a : Q) :
  0 <= h < 360 -> 0 <= a <= 360 -> 0 <= rotateHue h a < 360.
Proof.
  intros Hh Ha.
  destruct (rotateHue_cases h a Hh Ha) as [[H1 H2]|[H1 H2]];
    rewrite H2; destruct Hh, Ha; split; lra.
Qed.

#[local] Instance circularDistance_Proper :
  Proper (Qeq ==> Qeq ==> Qeq) circularDistance.
Proof.
  intros x x' Hx y y' Hy. unfold circularDistance. rewrite Hx, Hy. reflexivity.
Qed.

Lemma circularDistance_offset (h h' a : Q) :
  0 <= a <= 180 -> (h' == h + a \/ h' == h + a - 360) ->
  circularDistance h h' == a.
Proof.
  intros Ha Hh'. unfold circularDistance.
  qabs_cases (h - h');
    destruct (Q.min_spec (Qabs (h - h')) (360 - Qabs (h - h'))) as [[H1 H2]|[H1 H2]];
    destruct Hh'; lra.
Qed.

(** ** Triadic and tetradic schemes *)

Section Schemes.

Variable lib : HsluvLib.

(** The colour the package returns for a hue with the saturation and
    lightness of [base]. *)
Let atHue (base : HSLuvColor) (h : Q) : string :=
  lib_hsluvToHex lib {| hsl_h := h; hsl_s := hsl_s base; hsl_l := hsl_l base |}.

(** [TriadicScheme] returns three colours: the base colour in lower case,
    as the object holds it after [hexToHsluv], and the package's colours
    generated at the base hue rotated by 120 degrees once and twice, with
    the saturation and lightness of the base colour.  The three hues at
    which the colours are generated differ pairwise by 120 degrees up to
    whole turns, and their circular distances are 120 when the base hue is
    in [0,360).  [TetradicScheme] returns four colours: the base colour in
    lower case and the package's colours generated at the base hue rotated
    by 60, 180 and 240 degrees.  The hues that the package reads back from
    the colours it returned are not part of the statement. *)
Theorem schemes_generated_hues (baseColor : string) :
  isValidHexColor baseColor = true ->
  let base := lib_hexToHsluv lib baseColor in
  let h := hsl_h base in
  let h1 := rotateHue h 120 in
  let h2 := rotateHue h1 120 in
  (TriadicScheme lib baseColor
   = Ok [toLowerCase baseColor; atHue base h1; atHue base h2]
   /\ congruent360 (h1 - h) 120
   /\ congruent360 (h2 - h1) 120
   /\ congruent360 (h - h2) 120
   /\ (0 <= h < 360 ->
       circularDistance h h1 == 120 /\ circularDistance h1 h2 == 120
       /\ circularDistance h2 h == 120))
  /\
  (TetradicScheme lib baseColor
   = Ok [toLowerCase baseColor; atHue base (rotateHue h 60);
         atHue base (rotateHue h 180);
         atHue base (rotateHue h 240)]
   /\ congruent360 (h - h) 0
   /\ congruent360 (rotateHue h 60 - h) 60
   /\ congruent360 (rotateHue h 180 - h) 180
   /\ congruent360 (rotateHue h 240 - h) 240).
Proof.
  intros Hvalid base h h1 h2.
  assert (C1 : congruent360 (h1 - h) 120) by apply rotateHue_congruent.
  assert (C2 : congruent360 (h2 - h1) 120) by apply rotateHue_congruent.
  split; [|split]; [split; [|split; [|split; [|split]]]| |].
  - unfold TriadicScheme. rewrite Hvalid. reflexivity.
  - exact C1.
  - exact C2.
  - destruct (congruent360_turn _ _ (congruent360_trans_sum _ _ _ _ C1 C2))
      as [k Hk].
    exists k. clearbody h h1 h2. lra.
  - intro Hh.
    assert (H120 : 0 <= 120 <= 360) by (split; discriminate).
    pose proof (rotateHue_cases h 120 Hh H120) as Hc1. fold h1 in Hc1.
    pose proof (rotateHue_range h 120 Hh H120) as Hr1. fold h1 in Hr1.
    pose proof (rotateHue_cases h1 120 Hr1 H120) as Hc2. fold h2 in Hc2.
    clearbody h h1 h2. unfold circularDistance.
    qabs_cases (h - h1); qabs_cases (h1 - h2); qabs_cases (h2 - h);
      destruct (Q.min_spec (Qabs (h - h1)) (360 - Qabs (h - h1))) as [[? ?]|[? ?]];
      destruct (Q.min_spec (Qabs (h1 - h2)) (360 - Qabs (h1 - h2))) as [[? ?]|[? ?]];
      destruct (Q.min_spec (Qabs (h2 - h)) (360 - Qabs (h2 - h))) as [[? ?]|[? ?]];
      destruct Hc1 as [[? ?]|[? ?]]; destruct Hc2 as [[? ?]|[? ?]];
      destruct Hh, Hr1; repeat split; lra.
  - unfold TetradicScheme. rewrite Hvalid. reflexivity.
  - repeat split; try apply rotateHue_congruent.
    exists 0%Z. change (inject_Z 0) with 0. ring.
Qed.

End Schemes.

Lemma schemes_generated_hues_witness :
  isValidHexColor "#FF0000" = true /\
  forall lib : HsluvLib,
    let base := lib_hexToHsluv lib "#FF0000" in
    let h1 := rotateHue (hsl_h base) 120 in
    TriadicScheme lib "#FF0000"
    = Ok ["#ff0000"%string;
          lib_hsluvToHex lib
            {| hsl_h := h1; hsl_s := hsl_s base; hsl_l := hsl_l base |};
          lib_hsluvToHex lib
            {| hsl_h := rotateHue h1 120; hsl_s := hsl_s base;
               hsl_l := hsl_l base |}].
Proof.
  split; [reflexivity|]. intro lib.
  exact (proj1 (proj1 (schemes_generated_hues lib "#FF0000" eq_refl))).
Defined.

Example rotateHue_wraps :
  rotateHue 300 120 == 60 /\ circularDistance 300 (rotateHue 300 120) == 120.
Proof. split; reflexivity. Qed.

(** ** Percent above 100 *)

(** [HpluvToHex] throws on every percent above 100, whatever the hue and the
    lightness: a percent that [HexToHpluv] reports above 100 cannot be
    converted back. *)
Theorem HpluvToHex_rejects_percent_above_100 (lib : HsluvLib) (h p l : Q) :
  100 < p ->
  HpluvToHex lib h p l
  = UserVisibleError
      "Invalid HPLuv values. Hue: 0-360, Percent and Lightness: 0-100.".
Proof.
  intro Hp. unfold HpluvToHex.
  destruct (isValidHpluv h p l) eqn:E; [|reflexivity].
  apply isValidHpluv_iff in E. destruct E as (_ & [_ Hle] & _).
  exfalso. apply (Qlt_not_le _ _ Hp Hle).
Qed.

Lemma HpluvToHex_rejects_percent_above_100_witness :
  100 < 426.75 /\
  forall lib : HsluvLib,
    HpluvToHex lib 12.18 426.75 53.24
    = UserVisibleError
        "Invalid HPLuv values. Hue: 0-360, Percent and Lightness: 0-100.".
Proof.
  assert (H : 100 < 426.75) by reflexivity.
  split; [exact H|]. intro lib.
  exact (HpluvToHex_rejects_percent_above_100 lib 12.18 426.75 53.24 H).
Defined.

(** ** Hex strings of valid colours *)

(** Two hexadecimal digits parse to a byte, and the byte prints as the same
    two digits in lower case. *)
Lemma parseInt16_byte (c1 c2 : ascii) :
  isHexDigit c1 = true -> isHexDigit c2 = true ->
  exists v : Z,
    parseInt16 (c1, c2) = Some v /\ (0 <= v <= 255)%Z /\
    padStart2 (toString16 v)
    = String (toLowerAscii c1) (String (toLowerAscii c2) EmptyString) /\
    parseInt16 (toLowerAscii c1, toLowerAscii c2) = Some v.
Proof.
  intros H1 H2.
  destruct c1 as [[] [] [] [] [] [] [] []]; try discriminate H1;
    destruct c2 as [[] [] [] [] [] [] [] []]; try discriminate H2;
      (eexists; split; [reflexivity|];
       split; [split; discriminate | split; reflexivity]).
Qed.

(** A valid colour is a hash sign and three bytes. *)
Lemma valid_hex_channels (hex : string) :
  isValidHexColor hex = true ->
  exists r g b : Z,
    hexToRgb hex = Some [r; g; b] /\
    (0 <= r <= 255)%Z /\ (0 <= g <= 255)%Z /\ (0 <= b <= 255)%Z /\
    rgbToHex [inject_Z r; inject_Z g; inject_Z b] = toLowerCase hex /\
    hexToRgb (toLowerCase hex) = Some [r; g; b].
Proof.
  unfold isValidHexColor.
  destruct hex as [|c0 rest]; [discriminate|].
  destruct (Ascii.eqb c0 "#") eqn:E0.
  2:{ destruct c0 as [[] [] [] [] [] [] [] []]; try discriminate; discriminate E0. }
  apply Ascii.eqb_eq in E0. subst c0.
  destruct rest as [|c1 [|c2 [|c3 [|c4 [|c5 [|c6 [|c7 rest]]]]]]];
    try discriminate.
  cbn [String.length Nat.eqb andb list_ascii_of_string forallb].
  rewrite !andb_true_iff. intros (D1 & D2 & D3 & D4 & D5 & D6 & _).
  destruct (parseInt16_byte c1 c2 D1 D2) as (r & Pr & Rr & Sr & Lr).
  destruct (parseInt16_byte c3 c4 D3 D4) as (g & Pg & Rg & Sg & Lg).
  destruct (parseInt16_byte c5 c6 D5 D6) as (b & Pb & Rb & Sb & Lb).
  exists r, g, b.
  split.
  { unfold hexToRgb. cbn [stripHash list_ascii_of_string chunks2 mapM].
    rewrite Pr, Pg, Pb. reflexivity. }
  repeat (split; [assumption|]).
  split.
  { unfold rgbToHex. cbn [map String.concat].
    rewrite !Math_round_inject_Z, Sr, Sg, Sb. reflexivity. }
  unfold hexToRgb.
  cbn [toLowerCase stripHash list_ascii_of_string chunks2 mapM].
  change (toLowerAscii "#") with "#"%char.
  cbn [stripHash list_ascii_of_string chunks2 mapM].
  rewrite Lr, Lg, Lb. reflexivity.
Qed.

(** A valid colour read by [hexToRgb] and written back by [rgbToHex] is the
    same colour with its digits in lower case. *)
Theorem hex_round_trip_lower_case (hex : string) :
  isValidHexColor hex = true ->
  exists rgb : list Z,
    hexToRgb hex = Some rgb /\
    rgbToHex (map inject_Z rgb) = toLowerCase hex /\
    isValidHexColor (toLowerCase hex) = true /\
    hexToRgb (toLowerCase hex) = Some rgb.
Proof.
  intro V.
  destruct (valid_hex_channels hex V) as (r & g & b & P & _ & _ & _ & S & L).
  exists [r; g; b]. repeat split; try assumption.
  clear - V. unfold isValidHexColor in *.
  destruct hex as [|c0 rest]; [discriminate|].
  destruct (Ascii.eqb c0 "#") eqn:E0.
  2:{ destruct c0 as [[] [] [] [] [] [] [] []]; try discriminate; discriminate E0. }
  apply Ascii.eqb_eq in E0. subst c0.
  cbn [toLowerCase]. change (toLowerAscii "#") with "#"%char.
  apply andb_true_iff in V. destruct V as [Hlen Hdig].
  apply andb_true_iff. split.
  - clear Hdig. revert Hlen. generalize 6%nat.
    induction rest as [|c rest IH]; intros n Hn; [exact Hn|].
    destruct n; [discriminate|]. cbn in *. apply IH, Hn.
  - clear Hlen. induction rest as [|c rest IH]; [reflexivity|].
    cbn [toLowerCase list_ascii_of_string forallb] in *.
    apply andb_true_iff in Hdig. destruct Hdig as [Hc Hrest].
    apply andb_true_iff. split; [|apply IH, Hrest].
    clear - Hc.
    destruct c as [[] [] [] [] [] [] [] []]; try discriminate Hc; reflexivity.
Qed.

Lemma hex_round_trip_lower_case_witness :
  exists rgb : list Z,
    hexToRgb "#C0FFEE" = Some rgb /\
    rgbToHex (map inject_Z rgb) = toLowerCase "#C0FFEE" /\
    isValidHexColor (toLowerCase "#C0FFEE") = true /\
    hexToRgb (toLowerCase "#C0FFEE") = Some rgb.
Proof.
  apply (hex_round_trip_lower_case "#C0FFEE"). reflexivity.
Defined.

(** ** Linear gradient *)

Lemma loopIndices_integer (n : Z) :
  loopIndices (inject_Z n) = map Z.of_nat (seq 0 (Z.to_nat n)).
Proof. unfold loopIndices. rewrite Qceiling_Z. reflexivity. Qed.



(** ** Luminance and contrast *)

Local Open Scope R_scope.

Lemma Rpower_one (e : R) : Rpower 1 e = 1.
Proof. unfold Rpower. rewrite ln_1, Rmult_0_r. apply exp_0. Qed.

Lemma linearize_unit (x : R) : 0 <= x <= 1 -> 0 <= linearize x <= 1.
Proof.
  intros [H0 H1]. unfold linearize.
  destruct (Rle_dec x 0.03928) as [Hle|Hgt].
  - split; lra.
  - assert (Hb : 0 < (x + 0.055) / 1.055 <= 1) by (split; lra).
    split.
    + left. unfold Rpower. apply exp_pos.
    + rewrite <- (Rpower_one 2.4). apply Rle_Rpower_l; [lra|exact Hb].
Qed.

Lemma channel_unit (x : Z) : (0 <= x <= 255)%Z -> 0 <= IZR x / 255 <= 1.
Proof.
  intros [H0 H1]. apply IZR_le in H0, H1. split; lra.
Qed.

Lemma luminanceOf_unit (r g b : Z) :
  (0 <= r <= 255)%Z -> (0 <= g <= 255)%Z -> (0 <= b <= 255)%Z ->
  0 <= luminanceOf r g b <= 1.
Proof.
  intros Hr Hg Hb. unfold luminanceOf.
  pose proof (linearize_unit _ (channel_unit r Hr)).
  pose proof (linearize_unit _ (channel_unit g Hg)).
  pose proof (linearize_unit _ (channel_unit b Hb)).
  split; lra.
Qed.

Lemma getLuminance_valid (hex : string) :
  isValidHexColor hex = true ->
  exists l : R, getLuminance hex = Some l /\ 0 <= l <= 1.
Proof.
  intro V.
  destruct (valid_hex_channels hex V) as (r & g & b & P & Hr & Hg & Hb & _).
  exists (luminanceOf r g b). split.
  - unfold getLuminance. rewrite P. reflexivity.
  - apply luminanceOf_unit; assumption.
Qed.

Lemma toFixed2_nonneg_eq (x : R) :
  0 <= x -> toFixed2 x = IZR (Zfloor (x * 100 + / 2)) / 100.
Proof.
  intro H. unfold toFixed2. destruct (Rlt_dec x 0); [lra|reflexivity].
Qed.

Lemma toFixed2_value (x : R) (n : Z) :
  0 <= x -> IZR n - / 2 <= x * 100 < IZR n + / 2 ->
  toFixed2 x = IZR n / 100.
Proof.
  intros H0 Hn. rewrite (toFixed2_nonneg_eq x H0).
  rewrite (Zfloor_eq n); [reflexivity|]. lra.
Qed.

Lemma toFixed2_le (x : R) (n : Z) :
  0 <= x -> x * 100 <= IZR n -> toFixed2 x <= IZR n / 100.
Proof.
  intros H0 Hn. rewrite (toFixed2_nonneg_eq x H0).
  assert (H : (Zfloor (x * 100 + / 2) <= n)%Z).
  { assert (Hlt : (Zfloor (x * 100 + / 2) < n + 1)%Z); [|lia].
    apply lt_IZR. rewrite plus_IZR.
    pose proof (Zfloor_bound (x * 100 + / 2)) as [Hb _]. lra. }
  apply IZR_le in H. lra.
Qed.

(** The ratio of [calculateContrastRatio] before rounding. *)
Lemma raw_ratio_bounds (l1 l2 : R) :
  0 <= l1 <= 1 -> 0 <= l2 <= 1 ->
  1 <= (Rmax l1 l2 + 0.05) / (Rmin l1 l2 + 0.05) <= 21.
Proof.
  intros H1 H2.
  assert (Hmax : Rmin l1 l2 <= Rmax l1 l2 <= 1).
  { unfold Rmax, Rmin. destruct (Rle_dec l1 l2); lra. }
  assert (Hmin : 0 <= Rmin l1 l2).
  { unfold Rmin. destruct (Rle_dec l1 l2); lra. }
  set (hi := Rmax l1 l2) in *. set (lo := Rmin l1 l2) in *.
  assert (Hpos : 0 < lo + 0.05) by lra.
  split.
  - apply (Rmult_le_reg_r (lo + 0.05)); [exact Hpos|].
    unfold Rdiv. rewrite Rmult_assoc, Rinv_l by lra. lra.
  - apply (Rmult_le_reg_r (lo + 0.05)); [exact Hpos|].
    unfold Rdiv. rewrite Rmult_assoc, Rinv_l by lra. lra.
Qed.

Lemma calculateContrastRatio_valid (a b : string) :
  isValidHexColor a = true -> isValidHexColor b = true ->
  exists ratio : R,
    calculateContrastRatio a b = Some ratio /\
    calculateContrastRatio b a = Some ratio /\
    1 <= ratio <= 21.
Proof.
  intros Va Vb.
  destruct (getLuminance_valid a Va) as (la & Ea & Ha).
  destruct (getLuminance_valid b Vb) as (lb & Eb & Hb).
  unfold calculateContrastRatio. rewrite Ea, Eb.
  eexists. split; [reflexivity|]. split.
  - rewrite (Rmax_comm lb la), (Rmin_comm lb la). reflexivity.
  - destruct (raw_ratio_bounds la lb Ha Hb) as [Hlo Hhi].
    set (q := (Rmax la lb + 0.05) / (Rmin la lb + 0.05)) in *.
    split.
    + rewrite (toFixed2_nonneg_eq q) by lra.
      assert (H : (100 <= Zfloor (q * 100 + / 2))%Z).
      { apply Zfloor_lub. lra. }
      apply IZR_le in H. lra.
    + replace 21 with (IZR 2100 / 100) by lra.
      apply toFixed2_le; lra.
Qed.

Lemma luminance_black : getLuminance "#000000" = Some 0.
Proof.
  unfold getLuminance.
  change (hexToRgb "#000000") with (Some [0; 0; 0]%Z).
  cbn [map]. f_equal. unfold linearize.
  destruct (Rle_dec (0 / 255) 0.03928); lra.
Qed.

Lemma luminance_white : getLuminance "#FFFFFF" = Some 1.
Proof.
  unfold getLuminance.
  change (hexToRgb "#FFFFFF") with (Some [255; 255; 255]%Z).
  cbn [map]. f_equal. unfold linearize.
  destruct (Rle_dec (255 / 255) 0.03928); [lra|].
  replace ((255 / 255 + 0.055) / 1.055) with 1 by lra.
  rewrite Rpower_one. lra.
Qed.

Lemma contrast_black_white :
  calculateContrastRatio "#000000" "#FFFFFF" = Some 21.
Proof.
  unfold calculateContrastRatio. rewrite luminance_black, luminance_white.
  f_equal.
  replace (Rmax 0 1) with 1 by (unfold Rmax; destruct (Rle_dec 0 1); lra).
  replace (Rmin 0 1) with 0 by (unfold Rmin; destruct (Rle_dec 0 1); lra).
  rewrite (toFixed2_value _ 2100); lra.
Qed.

(** C8.  The contrast ratio of two valid colours does not depend on their
    order and is at most 21, the value for black against white. *)
Theorem contrast_symmetric_max_21 (a b : string) :
  isValidHexColor a = true -> isValidHexColor b = true ->
  (exists ratio : R,
     calculateContrastRatio a b = Some ratio /\
     calculateContrastRatio b a = Some ratio /\
     ratio <= 21) /\
  calculateContrastRatio "#000000" "#FFFFFF" = Some 21.
Proof.
  intros Va Vb. split; [|exact contrast_black_white].
  destruct (calculateContrastRatio_valid a b Va Vb) as (q & E1 & E2 & _ & H).
  exists q. auto.
Qed.

Lemma contrast_symmetric_max_21_witness :
  (exists ratio : R,
     calculateContrastRatio "#FFFFFF" "#000000" = Some ratio /\
     calculateContrastRatio "#000000" "#FFFFFF" = Some ratio /\
     ratio <= 21) /\
  calculateContrastRatio "#000000" "#FFFFFF" = Some 21.
Proof.
  apply (contrast_symmetric_max_21 "#FFFFFF" "#000000"); reflexivity.
Defined.

(** The contrast ratio of two valid colours is at least 1, and it is exactly
    1 for a colour against itself. *)
Theorem contrast_at_least_one (a b : string) :
  isValidHexColor a = true -> isValidHexColor b = true ->
  (exists ratio : R, calculateContrastRatio a b = Some ratio /\ 1 <= ratio) /\
  calculateContrastRatio a a = Some 1.
Proof.
  intros Va Vb. split.
  - destruct (calculateContrastRatio_valid a b Va Vb) as (q & E & _ & H & _).
    exists q. auto.
  - destruct (getLuminance_valid a Va) as (l & E & Hl).
    unfold calculateContrastRatio. rewrite E. f_equal.
    replace (Rmax l l) with l by (unfold Rmax; destruct (Rle_dec l l); lra).
    replace (Rmin l l) with l by (unfold Rmin; destruct (Rle_dec l l); lra).
    replace ((l + 0.05) / (l + 0.05)) with 1 by (field; lra).
    rewrite (toFixed2_value _ 100); lra.
Qed.

Lemma contrast_at_least_one_witness :
  (exists ratio : R,
     calculateContrastRatio "#336699" "#FFFFFF" = Some ratio /\ 1 <= ratio) /\
  calculateContrastRatio "#336699" "#336699" = Some 1.
Proof.
  apply (contrast_at_least_one "#336699" "#FFFFFF"); reflexivity.
Defined.

(** *** A pair whose ratio is exactly 3 *)

(** Bounds on a power with exponent 2.4 = 12/5, from integer powers. *)
Lemma Rpower_12_5_bounds (base lo hi : R) :
  0 < base -> 0 <= lo -> 0 <= hi ->
  lo ^ 5 < base ^ 12 -> base ^ 12 < hi ^ 5 ->
  lo < Rpower base 2.4 < hi.
Proof.
  intros Hb Hlo Hhi H1 H2.
  set (y := Rpower base 2.4).
  assert (Hy : 0 < y) by (unfold y, Rpower; apply exp_pos).
  assert (E : y ^ 5 = base ^ 12).
  { rewrite <- (Rpower_pow 5 y Hy), <- (Rpower_pow 12 base Hb).
    unfold y. rewrite Rpower_mult. f_equal.
    rewrite !INR_IZR_INZ. simpl. lra. }
  split.
  - destruct (Rlt_le_dec lo y) as [H|H]; [exact H|exfalso].
    assert (Hp : y ^ 5 <= lo ^ 5) by (apply pow_incr; lra). lra.
  - destruct (Rlt_le_dec y hi) as [H|H]; [exact H|exfalso].
    assert (Hp : hi ^ 5 <= y ^ 5) by (apply pow_incr; lra). lra.
Qed.

Lemma luminance_grey_59 :
  exists l : R, getLuminance "#595959" = Some l /\ 0.09975 < l < 0.10025.
Proof.
  eexists. split.
  - unfold getLuminance.
    change (hexToRgb "#595959") with (Some [89; 89; 89]%Z).
    cbn [map]. reflexivity.
  - unfold linearize.
    destruct (Rle_dec (89 / 255) 0.03928) as [H|_]; [lra|].
    assert (B : 0.09975 < Rpower ((89 / 255 + 0.055) / 1.055) 2.4 < 0.10025).
    { apply Rpower_12_5_bounds; lra. }
    lra.
Qed.

Lemma contrast_grey_59_black :
  calculateContrastRatio "#595959" "#000000" = Some 3.
Proof.
  destruct luminance_grey_59 as (l & E & Hl).
  unfold calculateContrastRatio. rewrite E, luminance_black. f_equal.
  replace (Rmax l 0) with l by (unfold Rmax; destruct (Rle_dec l 0); lra).
  replace (Rmin l 0) with 0 by (unfold Rmin; destruct (Rle_dec l 0); lra).
  rewrite (toFixed2_value _ 300); lra.
Qed.

(** *** Accessibility *)

Lemma Rge_bool_true_iff (x y : R) : Rge_bool x y = true <-> y <= x.
Proof.
  unfold Rge_bool. destruct (Rge_dec x y); split; intro H;
    try reflexivity; try discriminate; lra.
Qed.

(** C7.  For valid colours [checkAccessibility] answers, and its answer is
    true exactly when the contrast ratio reaches the threshold of the level
    and size: 4.5 for AA small, 3 for AA large, 7 for AAA small, 4.5 for AAA
    large.  A pair of ratio 3 passes AA large and fails AA small; black on
    white passes AA small. *)
Theorem checkAccessibility_thresholds (foreground background : string) :
  isValidHexColor foreground = true -> isValidHexColor background = true ->
  (exists ratio : R,
     calculateContrastRatio foreground background = Some ratio /\
     (forall level size, exists answer : bool,
        checkAccessibility foreground background level size = Some answer) /\
     (checkAccessibility foreground background AA small = Some true
      <-> 4.5 <= ratio) /\
     (checkAccessibility foreground background AA large = Some true
      <-> 3 <= ratio) /\
     (checkAccessibility foreground background AAA small = Some true
      <-> 7 <= ratio) /\
     (checkAccessibility foreground background AAA large = Some true
      <-> 4.5 <= ratio) /\
     (ratio = 3 ->
      checkAccessibility foreground background AA large = Some true /\
      checkAccessibility foreground background AA small = Some false)) /\
  checkAccessibility "#000000" "#FFFFFF" AA small = Some true.
Proof.
  intros Vf Vb.
  assert (Hiff : forall (f b : string) (q : R) level size,
            calculateContrastRatio f b = Some q ->
            forall t : R,
              t = match level, size with
                  | AA, large => WCAG_CONTRAST_RATIOS.AA_LARGE
                  | AA, small => WCAG_CONTRAST_RATIOS.AA_NORMAL
                  | AAA, large => WCAG_CONTRAST_RATIOS.AAA_LARGE
                  | AAA, small => WCAG_CONTRAST_RATIOS.AAA_NORMAL
                  end ->
              checkAccessibility f b level size = Some (Rge_bool q t)).
  { intros f b q level size E t ->. unfold checkAccessibility. rewrite E.
    destruct level, size; reflexivity. }
  assert (Hsome : forall (x : bool), Some x = Some true <-> x = true).
  { intro x. split; [intro H; injection H; auto | intros ->; reflexivity]. }
  split.
  - destruct (calculateContrastRatio_valid _ _ Vf Vb) as (q & E & _ & _).
    exists q. split; [exact E|].
    split.
    { intros level size. eexists. apply (Hiff _ _ _ level size E _ eq_refl). }
    rewrite (Hiff _ _ _ AA small E _ eq_refl).
    rewrite (Hiff _ _ _ AA large E _ eq_refl).
    rewrite (Hiff _ _ _ AAA small E _ eq_refl).
    rewrite (Hiff _ _ _ AAA large E _ eq_refl).
    rewrite !Hsome, !Rge_bool_true_iff.
    unfold WCAG_CONTRAST_RATIOS.AA_NORMAL, WCAG_CONTRAST_RATIOS.AA_LARGE,
      WCAG_CONTRAST_RATIOS.AAA_NORMAL, WCAG_CONTRAST_RATIOS.AAA_LARGE.
    do 4 (split; [split; intro; lra|]).
    intros ->. split; [lra|]. f_equal.
    destruct (Rge_bool 3 4.5) eqn:B; [|reflexivity].
    apply Rge_bool_true_iff in B. lra.
  - rewrite (Hiff _ _ _ AA small contrast_black_white _ eq_refl).
    f_equal. apply Rge_bool_true_iff.
    unfold WCAG_CONTRAST_RATIOS.AA_NORMAL. lra.
Qed.

Lemma checkAccessibility_thresholds_witness :
  calculateContrastRatio "#595959" "#000000" = Some 3 /\
  checkAccessibility "#595959" "#000000" AA large = Some true /\
  checkAccessibility "#595959" "#000000" AA small = Some false.
Proof.
  split; [exact contrast_grey_59_black|].
  destruct (proj1 (checkAccessibility_thresholds "#595959" "#000000"
                     eq_refl eq_refl))
    as (q & E & _ & _ & _ & _ & _ & H3).
  apply H3. rewrite contrast_grey_59_black in E. injection E as <-. reflexivity.
Defined.

(** * Further properties *)

(** ** Strings that [rgbToHex] writes *)

Local Open Scope Q_scope.

Lemma string_length_append (s1 s2 : string) :
  String.length (s1 ++ s2) = (String.length s1 + String.length s2)%nat.
Proof. induction s1 as [|c s1 IH]; cbn; [reflexivity|]. rewrite IH. reflexivity. Qed.

Lemma list_ascii_append (s1 s2 : string) :
  list_ascii_of_string (s1 ++ s2)
  = (list_ascii_of_string s1 ++ list_ascii_of_string s2)%list.
Proof. induction s1 as [|c s1 IH]; cbn; [reflexivity|]. rewrite IH. reflexivity. Qed.

Lemma byteRoundTrips_all : forallb byteRoundTrips (rangeZ 256) = true.
Proof. vm_compute. reflexivity. Qed.

(** A byte prints as two hexadecimal digits that parse back to it. *)
Lemma byte_digits (v : Z) :
  (0 <= v <= 255)%Z ->
  exists c1 c2 : ascii,
    padStart2 (toString16 v) = String c1 (String c2 EmptyString) /\
    isHexDigit c1 = true /\ isHexDigit c2 = true /\
    parseInt16 (c1, c2) = Some v.
Proof.
  intro Hv.
  pose proof (rangeZ_forallb 256 _ byteRoundTrips_all v ltac:(lia)) as H.
  unfold byteRoundTrips in H.
  destruct (padStart2 (toString16 v)) as [|c1 [|c2 [|c3 rest]]];
    try discriminate H.
  exists c1, c2.
  apply andb_true_iff in H. destruct H as [H Hp].
  apply andb_true_iff in H. destruct H as [H1 H2].
  destruct (parseInt16 (c1, c2)) as [w|]; [|discriminate Hp].
  apply Z.eqb_eq in Hp. subst w. auto.
Qed.

Lemma toHexDigits_length (fuel : nat) (n : N) (acc : string) :
  (S (String.length acc) <= String.length (toHexDigits fuel n acc))%nat.
Proof.
  revert n acc. induction fuel as [|fuel IH]; intros n acc; cbn.
  - lia.
  - destruct (n <? 16)%N; cbn; [lia|].
    specialize (IH (n / 16)%N (String (hexDigitChar (n mod 16)) acc)).
    cbn in IH. lia.
Qed.

Lemma padStart2_length (s : string) :
  (2 <= String.length (padStart2 s))%nat
  /\ (String.length s <= String.length (padStart2 s))%nat.
Proof.
  destruct s as [|c [|c' s]]; cbn; lia.
Qed.

(** The written form of a channel has two characters exactly when the
    channel is a byte; a larger one has more, and a negative one starts with
    a minus sign. *)
Lemma channel_string_cases (z : Z) :
  ((0 <= z <= 255)%Z /\ String.length (padStart2 (toString16 z)) = 2%nat)
  \/ ((255 < z)%Z /\ (3 <= String.length (padStart2 (toString16 z)))%nat)
  \/ ((z < 0)%Z /\ exists rest, padStart2 (toString16 z) = String "-" rest).
Proof.
  destruct (Z_lt_le_dec z 0) as [Hneg|Hpos].
  - right; right. split; [exact Hneg|].
    unfold toString16. rewrite (proj2 (Z.ltb_lt z 0) Hneg).
    set (digits := toHexDigits _ _ _).
    pose proof (toHexDigits_length (N.to_nat (N.size (Z.abs_N z))) (Z.abs_N z)
                  EmptyString) as Hlen.
    fold digits in Hlen. destruct digits as [|c rest]; [cbn in Hlen; lia|].
    exists (String c rest). reflexivity.
  - destruct (Z_le_gt_dec z 255) as [Hle|Hgt].
    + left. split; [lia|].
      destruct (byte_digits z ltac:(lia)) as (c1 & c2 & E & _). rewrite E. reflexivity.
    + right; left. split; [lia|].
      eapply Nat.le_trans; [|apply padStart2_length].
      unfold toString16. rewrite (proj2 (Z.ltb_ge z 0) Hpos).
      set (n := Z.abs_N z).
      assert (Hn : (256 <= n)%N) by (unfold n; lia).
      assert (Hsize : (2 <= N.to_nat (N.size n))%nat).
      { pose proof (N.size_gt n) as Hs.
        assert (Hlt : (2 ^ 8 < 2 ^ N.size n)%N) by (change (2 ^ 8)%N with 256%N; lia).
        apply N.pow_lt_mono_r_iff in Hlt; lia. }
      destruct (N.to_nat (N.size n)) as [|[|fuel]]; try lia.
      cbn [toHexDigits].
      assert (H1 : (n <? 16)%N = false) by (apply N.ltb_ge; lia).
      assert (H2 : (n / 16 <? 16)%N = false).
      { apply N.ltb_ge. apply N.div_le_lower_bound; lia. }
      rewrite H1, H2.
      eapply Nat.le_trans; [|apply toHexDigits_length]. cbn. lia.
Qed.

(** Three byte channels are written as a valid colour and read back. *)
Lemma rgbToHex_bytes (r g b : Z) :
  (0 <= r <= 255)%Z -> (0 <= g <= 255)%Z -> (0 <= b <= 255)%Z ->
  isValidHexColor (rgbToHex [inject_Z r; inject_Z g; inject_Z b]) = true
  /\ hexToRgb (rgbToHex [inject_Z r; inject_Z g; inject_Z b]) = Some [r; g; b].
Proof.
  intros Hr Hg Hb.
  destruct (byte_digits r Hr) as (r1 & r2 & Er & Dr1 & Dr2 & Pr).
  destruct (byte_digits g Hg) as (g1 & g2 & Eg & Dg1 & Dg2 & Pg).
  destruct (byte_digits b Hb) as (b1 & b2 & Eb & Db1 & Db2 & Pb).
  unfold rgbToHex. cbn [map String.concat].
  rewrite !Math_round_inject_Z, Er, Eg, Eb. cbn [append].
  split.
  - unfold isValidHexColor. cbn [String.length Nat.eqb list_ascii_of_string forallb].
    rewrite Dr1, Dr2, Dg1, Dg2, Db1, Db2. reflexivity.
  - unfold hexToRgb. cbn [stripHash list_ascii_of_string chunks2 mapM].
    rewrite Pr, Pg, Pb. reflexivity.
Qed.

(** [rgbToHex] rounds its channels first. *)
Lemma rgbToHex_rounded (x y z : Q) :
  rgbToHex [x; y; z]
  = rgbToHex [inject_Z (Math_round x); inject_Z (Math_round y);
              inject_Z (Math_round z)].
Proof.
  unfold rgbToHex. cbn [map]. rewrite !Math_round_inject_Z. reflexivity.
Qed.

(** [rgbToHex] writes a valid colour exactly for three byte channels, and
    [hexToRgb] reads these channels back. *)
Theorem rgbToHex_valid_iff_bytes (r g b : Z) :
  (isValidHexColor (rgbToHex [inject_Z r; inject_Z g; inject_Z b]) = true
   <-> ((0 <= r <= 255)%Z /\ (0 <= g <= 255)%Z /\ (0 <= b <= 255)%Z))
  /\ (isValidHexColor (rgbToHex [inject_Z r; inject_Z g; inject_Z b]) = true ->
      hexToRgb (rgbToHex [inject_Z r; inject_Z g; inject_Z b])
      = Some [r; g; b]).
Proof.
  assert (Hback : (0 <= r <= 255)%Z /\ (0 <= g <= 255)%Z /\ (0 <= b <= 255)%Z ->
            isValidHexColor (rgbToHex [inject_Z r; inject_Z g; inject_Z b]) = true
            /\ hexToRgb (rgbToHex [inject_Z r; inject_Z g; inject_Z b])
               = Some [r; g; b]).
  { intros (Hr & Hg & Hb). apply rgbToHex_bytes; assumption. }
  assert (Hforth :
            isValidHexColor (rgbToHex [inject_Z r; inject_Z g; inject_Z b]) = true ->
            (0 <= r <= 255)%Z /\ (0 <= g <= 255)%Z /\ (0 <= b <= 255)%Z).
  { unfold rgbToHex. cbn [map String.concat]. rewrite !Math_round_inject_Z.
    set (pr := padStart2 (toString16 r)). set (pg := padStart2 (toString16 g)).
    set (pb := padStart2 (toString16 b)).
    unfold isValidHexColor. cbn [append]. intro H.
    apply andb_true_iff in H. destruct H as [Hlen Hdig].
    apply Nat.eqb_eq in Hlen.
    change (pr ++ "" ++ pg ++ "" ++ pb)%string with (pr ++ pg ++ pb)%string in *.
    rewrite !string_length_append in Hlen.
    rewrite !list_ascii_append, !forallb_app in Hdig.
    apply andb_true_iff in Hdig. destruct Hdig as [Dr Dgb].
    apply andb_true_iff in Dgb. destruct Dgb as [Dg Db].
    pose proof (proj1 (padStart2_length (toString16 r))) as Lr.
    pose proof (proj1 (padStart2_length (toString16 g))) as Lg.
    pose proof (proj1 (padStart2_length (toString16 b))) as Lb.
    fold pr in Lr. fold pg in Lg. fold pb in Lb.
    assert (Hcase : forall z, String.length (padStart2 (toString16 z)) = 2%nat ->
              forallb isHexDigit (list_ascii_of_string (padStart2 (toString16 z))) = true ->
              (0 <= z <= 255)%Z).
    { intros z L D.
      destruct (channel_string_cases z) as [[Hz _]|[[_ Hz]|[_ [rest Hz]]]].
      - exact Hz.
      - lia.
      - rewrite Hz in D. cbn in D. discriminate D. }
    repeat split; apply Hcase; try assumption; fold pr pg pb; lia. }
  split; [split; [exact Hforth | intro H; apply Hback, H] |].
  intro H. apply Hback, Hforth, H.
Qed.

Example rgbToHex_out_of_range :
  rgbToHex [256; 0; -1] = "#10000-1"%string.
Proof. reflexivity. Qed.

(** ** Mixing, tints and shades *)

Lemma mixed_channel_between (c d : Z) (t : Q) :
  0 <= t <= 1 ->
  (Z.min c d <= Math_round (inject_Z c * (1 - t) + inject_Z d * t)
   <= Z.max c d)%Z.
Proof.
  intros [H0 H1]. apply Math_round_between.
  - destruct (Z.min_spec c d) as [[Hlt ->]|[Hle ->]].
    + assert (H : inject_Z c <= inject_Z d) by (rewrite <- Zle_Qle; lia). nra.
    + assert (H : inject_Z d <= inject_Z c) by (rewrite <- Zle_Qle; lia). nra.
  - destruct (Z.max_spec c d) as [[Hlt ->]|[Hle ->]].
    + assert (H : inject_Z c <= inject_Z d) by (rewrite <- Zle_Qle; lia). nra.
    + assert (H : inject_Z d <= inject_Z c) by (rewrite <- Zle_Qle; lia). nra.
Qed.

Lemma mixed_channel_at_0 (c d : Z) (t : Q) :
  t == 0 -> Math_round (inject_Z c * (1 - t) + inject_Z d * t) = c.
Proof.
  intro H. rewrite <- (Math_round_inject_Z c) at 2.
  apply Math_round_comp. rewrite H. ring.
Qed.

Lemma mixed_channel_at_1 (c d : Z) (t : Q) :
  t == 1 -> Math_round (inject_Z c * (1 - t) + inject_Z d * t) = d.
Proof.
  intro H. rewrite <- (Math_round_inject_Z d) at 2.
  apply Math_round_comp. rewrite H. ring.
Qed.

(** What [mixColors] returns on two valid colours. *)
Lemma mixColors_valid (color1 color2 : string) (ratio : Q) :
  isValidHexColor color1 = true -> isValidHexColor color2 = true ->
  0 <= ratio <= 1 ->
  exists (r1 g1 b1 r2 g2 b2 m1 m2 m3 : Z) (mixed : string),
    hexToRgb color1 = Some [r1; g1; b1] /\
    hexToRgb color2 = Some [r2; g2; b2] /\
    mixColors color1 color2 ratio = Some mixed /\
    isValidHexColor mixed = true /\
    hexToRgb mixed = Some [m1; m2; m3] /\
    (Z.min r1 r2 <= m1 <= Z.max r1 r2)%Z /\
    (Z.min g1 g2 <= m2 <= Z.max g1 g2)%Z /\
    (Z.min b1 b2 <= m3 <= Z.max b1 b2)%Z /\
    (ratio == 0 -> mixed = toLowerCase color1) /\
    (ratio == 1 -> mixed = toLowerCase color2).
Proof.
  intros V1 V2 Ht.
  destruct (valid_hex_channels color1 V1)
    as (r1 & g1 & b1 & P1 & Hr1 & Hg1 & Hb1 & S1 & _).
  destruct (valid_hex_channels color2 V2)
    as (r2 & g2 & b2 & P2 & Hr2 & Hg2 & Hb2 & S2 & _).
  pose proof (mixed_channel_between r1 r2 ratio Ht) as M1.
  pose proof (mixed_channel_between g1 g2 ratio Ht) as M2.
  pose proof (mixed_channel_between b1 b2 ratio Ht) as M3.
  set (m1 := Math_round (inject_Z r1 * (1 - ratio) + inject_Z r2 * ratio)) in *.
  set (m2 := Math_round (inject_Z g1 * (1 - ratio) + inject_Z g2 * ratio)) in *.
  set (m3 := Math_round (inject_Z b1 * (1 - ratio) + inject_Z b2 * ratio)) in *.
  exists r1, g1, b1, r2, g2, b2, m1, m2, m3.
  exists (rgbToHex [inject_Z m1; inject_Z m2; inject_Z m3]).
  assert (B1 : (0 <= m1 <= 255)%Z) by lia.
  assert (B2 : (0 <= m2 <= 255)%Z) by lia.
  assert (B3 : (0 <= m3 <= 255)%Z) by lia.
  destruct (rgbToHex_bytes m1 m2 m3 B1 B2 B3) as [Vm Pm].
  split; [exact P1|]. split; [exact P2|].
  split.
  { unfold mixColors. rewrite P1, P2. cbn [mixChannels].
    rewrite rgbToHex_rounded. reflexivity. }
  split; [exact Vm|]. split; [exact Pm|].
  repeat (split; [assumption|]).
  split; intro E.
  - unfold m1, m2, m3. rewrite !(mixed_channel_at_0 _ _ _ E). exact S1.
  - unfold m1, m2, m3. rewrite !(mixed_channel_at_1 _ _ _ E). exact S2.
Qed.

(** [MixColors] on valid colours and a ratio in [0,1] returns a valid colour
    whose channels lie between the channels of the two colours; at ratio 0
    it is the first colour and at ratio 1 the second, in lower case. *)
Theorem MixColors_between (color1 color2 : string) (ratio : Q) :
  isValidHexColor color1 = true -> isValidHexColor color2 = true ->
  0 <= ratio <= 1 ->
  exists (r1 g1 b1 r2 g2 b2 m1 m2 m3 : Z) (mixed : string),
    hexToRgb color1 = Some [r1; g1; b1] /\
    hexToRgb color2 = Some [r2; g2; b2] /\
    MixColors color1 color2 ratio = Some (Ok mixed) /\
    isValidHexColor mixed = true /\
    hexToRgb mixed = Some [m1; m2; m3] /\
    (Z.min r1 r2 <= m1 <= Z.max r1 r2)%Z /\
    (Z.min g1 g2 <= m2 <= Z.max g1 g2)%Z /\
    (Z.min b1 b2 <= m3 <= Z.max b1 b2)%Z /\
    (ratio == 0 -> mixed = toLowerCase color1) /\
    (ratio == 1 -> mixed = toLowerCase color2).
Proof.
  intros V1 V2 Ht.
  destruct (mixColors_valid color1 color2 ratio V1 V2 Ht)
    as (r1 & g1 & b1 & r2 & g2 & b2 & m1 & m2 & m3 & mixed & P1 & P2 & E & rest).
  exists r1, g1, b1, r2, g2, b2, m1, m2, m3, mixed.
  split; [exact P1|]. split; [exact P2|]. split; [|exact rest].
  unfold MixColors. rewrite V1, V2. cbn [negb orb].
  destruct Ht as [H0 H1].
  rewrite (proj2 (Qlt_bool_false_iff ratio 0) H0).
  rewrite (proj2 (Qlt_bool_false_iff 1 ratio) H1).
  cbn [orb]. rewrite E. reflexivity.
Qed.

Lemma MixColors_between_witness :
  exists (r1 g1 b1 r2 g2 b2 m1 m2 m3 : Z) (mixed : string),
    hexToRgb "#FF0000" = Some [r1; g1; b1] /\
    hexToRgb "#00ff00" = Some [r2; g2; b2] /\
    MixColors "#FF0000" "#00ff00" (1 # 2) = Some (Ok mixed) /\
    isValidHexColor mixed = true /\
    hexToRgb mixed = Some [m1; m2; m3] /\
    (Z.min r1 r2 <= m1 <= Z.max r1 r2)%Z /\
    (Z.min g1 g2 <= m2 <= Z.max g1 g2)%Z /\
    (Z.min b1 b2 <= m3 <= Z.max b1 b2)%Z /\
    ((1 # 2) == 0 -> mixed = toLowerCase "#FF0000") /\
    ((1 # 2) == 1 -> mixed = toLowerCase "#00ff00").
Proof.
  apply (MixColors_between "#FF0000" "#00ff00" (1 # 2));
    [reflexivity | reflexivity | split; discriminate].
Defined.

Example MixColors_half :
  MixColors "#FF0000" "#00ff00" (1 # 2) = Some (Ok "#808000"%string).
Proof. vm_compute. reflexivity. Qed.

(** [Tint] never lowers a channel and [Shade] never raises one: for a valid
    colour and an amount in [0,1] both return a valid colour, the tint with
    channels from the colour's up to 255 and the shade with channels from 0
    up to the colour's; amount 0 gives the colour back in lower case, amount
    1 gives white and black. *)
Theorem Tint_Shade_channels (color : string) (amount : Q) :
  isValidHexColor color = true -> 0 <= amount <= 1 ->
  exists (r g b t1 t2 t3 s1 s2 s3 : Z) (tinted shaded : string),
    hexToRgb color = Some [r; g; b] /\
    Tint color amount = Some (Ok tinted) /\
    Shade color amount = Some (Ok shaded) /\
    isValidHexColor tinted = true /\ isValidHexColor shaded = true /\
    hexToRgb tinted = Some [t1; t2; t3] /\
    hexToRgb shaded = Some [s1; s2; s3] /\
    (r <= t1 <= 255)%Z /\ (g <= t2 <= 255)%Z /\ (b <= t3 <= 255)%Z /\
    (0 <= s1 <= r)%Z /\ (0 <= s2 <= g)%Z /\ (0 <= s3 <= b)%Z /\
    (amount == 0 -> tinted = toLowerCase color /\ shaded = toLowerCase color) /\
    (amount == 1 -> tinted = "#ffffff"%string /\ shaded = "#000000"%string).
Proof.
  intros V Ha.
  destruct (valid_hex_channels color V) as (r & g & b & P & Hr & Hg & Hb & _).
  destruct (mixColors_valid color STANDARD_COLORS.WHITE amount V eq_refl Ha)
    as (r1 & g1 & b1 & w1 & w2 & w3 & t1 & t2 & t3 & tinted
        & P1 & PW & ET & VT & PT & T1 & T2 & T3 & T0 & TW).
  destruct (mixColors_valid color STANDARD_COLORS.BLACK amount V eq_refl Ha)
    as (r2 & g2 & b2 & k1 & k2 & k3 & s1 & s2 & s3 & shaded
        & P2 & PB & ES & VS & PS & S1 & S2 & S3 & S0 & SB).
  rewrite P in P1, P2. injection P1 as <- <- <-. injection P2 as <- <- <-.
  change (hexToRgb STANDARD_COLORS.WHITE) with (Some [255; 255; 255]%Z) in PW.
  change (hexToRgb STANDARD_COLORS.BLACK) with (Some [0; 0; 0]%Z) in PB.
  injection PW as <- <- <-. injection PB as <- <- <-.
  exists r, g, b, t1, t2, t3, s1, s2, s3, tinted, shaded.
  destruct Ha as [H0 H1].
  split; [exact P|].
  split.
  { unfold Tint. rewrite V. cbn [negb].
    rewrite (proj2 (Qlt_bool_false_iff amount 0) H0).
    rewrite (proj2 (Qlt_bool_false_iff 1 amount) H1).
    cbn [orb]. rewrite ET. reflexivity. }
  split.
  { unfold Shade. rewrite V. cbn [negb].
    rewrite (proj2 (Qlt_bool_false_iff amount 0) H0).
    rewrite (proj2 (Qlt_bool_false_iff 1 amount) H1).
    cbn [orb]. rewrite ES. reflexivity. }
  repeat (split; [first [assumption | lia]|]).
  split; intro E.
  - split; [apply T0, E | apply S0, E].
  - split; [apply TW, E | apply SB, E].
Qed.

Lemma Tint_Shade_channels_witness :
  exists (r g b t1 t2 t3 s1 s2 s3 : Z) (tinted shaded : string),
    hexToRgb "#336699" = Some [r; g; b] /\
    Tint "#336699" (1 # 4) = Some (Ok tinted) /\
    Shade "#336699" (1 # 4) = Some (Ok shaded) /\
    isValidHexColor tinted = true /\ isValidHexColor shaded = true /\
    hexToRgb tinted = Some [t1; t2; t3] /\
    hexToRgb shaded = Some [s1; s2; s3] /\
    (r <= t1 <= 255)%Z /\ (g <= t2 <= 255)%Z /\ (b <= t3 <= 255)%Z /\
    (0 <= s1 <= r)%Z /\ (0 <= s2 <= g)%Z /\ (0 <= s3 <= b)%Z /\
    ((1 # 4) == 0 ->
     tinted = toLowerCase "#336699" /\ shaded = toLowerCase "#336699") /\
    ((1 # 4) == 1 -> tinted = "#ffffff"%string /\ shaded = "#000000"%string).
Proof.
  apply (Tint_Shade_channels "#336699" (1 # 4));
    [reflexivity | split; discriminate].
Defined.

(** ** CMYK to RGB *)

Lemma Math_round_eq (x : Q) (z : Z) : x == inject_Z z -> Math_round x = z.
Proof.
  intro H. rewrite (Math_round_comp _ _ H). apply Math_round_inject_Z.
Qed.

Lemma cmyk_channel_range (c k : Q) :
  0 <= c <= 1 -> 0 <= k <= 1 ->
  (0 <= Math_round (255 * (1 - c) * (1 - k)) <= 255)%Z.
Proof.
  intros [Hc0 Hc1] [Hk0 Hk1]. apply Math_round_between.
  - change (inject_Z 0) with 0. nra.
  - change (inject_Z 255) with 255. nra.
Qed.

Lemma CMYKToRGB_guard (c m y k : Q) :
  (Qlt_bool c 0 || Qlt_bool 1 c || Qlt_bool m 0 || Qlt_bool 1 m
   || Qlt_bool y 0 || Qlt_bool 1 y || Qlt_bool k 0 || Qlt_bool 1 k) = false
  <-> (0 <= c <= 1 /\ 0 <= m <= 1 /\ 0 <= y <= 1 /\ 0 <= k <= 1).
Proof.
  rewrite !orb_false_iff, !Qlt_bool_false_iff. tauto.
Qed.

(** [CMYKToRGB] returns a colour exactly when its four arguments are in
    [0,1], and throws otherwise; the channels of the colour are in [0,255],
    and a black component of 1 gives black whatever the other three are. *)
Theorem CMYKToRGB_range (c m y k : Q) :
  ((0 <= c <= 1 /\ 0 <= m <= 1 /\ 0 <= y <= 1 /\ 0 <= k <= 1) ->
   exists rgb : RGBColor,
     CMYKToRGB c m y k = Ok rgb /\
     (0 <= rgb_r rgb <= 255)%Z /\ (0 <= rgb_g rgb <= 255)%Z /\
     (0 <= rgb_b rgb <= 255)%Z /\
     (k == 1 -> rgb = {| rgb_r := 0; rgb_g := 0; rgb_b := 0 |}) /\
     (k == 0 -> c == 0 -> m == 0 -> y == 0 ->
      rgb = {| rgb_r := 255; rgb_g := 255; rgb_b := 255 |}))
  /\
  (~ (0 <= c <= 1 /\ 0 <= m <= 1 /\ 0 <= y <= 1 /\ 0 <= k <= 1) ->
   CMYKToRGB c m y k
   = UserVisibleError
       "Invalid CMYK values. All values must be between 0 and 1.").
Proof.
  unfold CMYKToRGB. split; intro H.
  - rewrite (proj2 (CMYKToRGB_guard c m y k) H).
    destruct H as (Hc & Hm & Hy & Hk).
    eexists. split; [reflexivity|]. unfold cmykToRgb; cbv zeta; cbn [rgb_r rgb_g rgb_b].
    split; [apply cmyk_channel_range; assumption|].
    split; [apply cmyk_channel_range; assumption|].
    split; [apply cmyk_channel_range; assumption|].
    split.
    + intro E.
      assert (Z0 : forall v, Math_round (255 * (1 - v) * (1 - k)) = 0%Z).
      { intro v. apply Math_round_eq. rewrite E. unfold inject_Z. ring. }
      rewrite !Z0. reflexivity.
    + intros Ek Ec Em Ey.
      assert (Z1 : forall v, v == 0 -> Math_round (255 * (1 - v) * (1 - k)) = 255%Z).
      { intros v Ev. apply Math_round_eq. rewrite Ev, Ek. unfold inject_Z. ring. }
      rewrite (Z1 c Ec), (Z1 m Em), (Z1 y Ey). reflexivity.
  - destruct (Qlt_bool c 0 || Qlt_bool 1 c || Qlt_bool m 0 || Qlt_bool 1 m
              || Qlt_bool y 0 || Qlt_bool 1 y || Qlt_bool k 0 || Qlt_bool 1 k)
      eqn:E; [reflexivity|].
    exfalso. apply H, CMYKToRGB_guard, E.
Qed.

Example CMYKToRGB_red :
  CMYKToRGB 0 1 1 0 = Ok {| rgb_r := 255; rgb_g := 0; rgb_b := 0 |}.
Proof. reflexivity. Qed.

(** The direction CMYK -> RGB -> CMYK loses the colour components of a full
    black: whatever c, m and y are, a black component of 1 converts to black,
    and black converts back to (0, 0, 0, 1). *)
Theorem CMYK_full_black_collapses (c m y : Q) :
  0 <= c <= 1 -> 0 <= m <= 1 -> 0 <= y <= 1 ->
  exists rgb : RGBColor,
    CMYKToRGB c m y 1 = Ok rgb /\
    RGBToCMYK (inject_Z (rgb_r rgb)) (inject_Z (rgb_g rgb)) (inject_Z (rgb_b rgb))
    = Some (Ok {| cmyk_c := 0; cmyk_m := 0; cmyk_y := 0; cmyk_k := 1 |}).
Proof.
  intros Hc Hm Hy.
  assert (Hk : 0 <= 1 <= 1) by (split; discriminate).
  unfold CMYKToRGB.
  rewrite (proj2 (CMYKToRGB_guard c m y 1) (conj Hc (conj Hm (conj Hy Hk)))).
  eexists. split; [reflexivity|]. unfold cmykToRgb; cbv zeta; cbn [rgb_r rgb_g rgb_b].
  assert (Z0 : forall v, Math_round (255 * (1 - v) * (1 - 1)) = 0%Z).
  { intro v. apply Math_round_eq. unfold inject_Z. ring. }
  rewrite !Z0. reflexivity.
Qed.

Lemma CMYK_full_black_collapses_witness :
  exists rgb : RGBColor,
    CMYKToRGB (1 # 2) (1 # 4) 1 1 = Ok rgb /\
    RGBToCMYK (inject_Z (rgb_r rgb)) (inject_Z (rgb_g rgb)) (inject_Z (rgb_b rgb))
    = Some (Ok {| cmyk_c := 0; cmyk_m := 0; cmyk_y := 0; cmyk_k := 1 |}).
Proof.
  apply (CMYK_full_black_collapses (1 # 2) (1 # 4) 1); split; discriminate.
Defined.

(** [RGBToCMYK] on a grey (three equal channels) has no colour component:
    c = m = y = 0. *)
Theorem RGBToCMYK_grey (v : Q) :
  0 <= v <= 255 ->
  exists cmyk : CMYKColor,
    RGBToCMYK v v v = Some (Ok cmyk) /\
    cmyk_c cmyk == 0 /\ cmyk_m cmyk == 0 /\ cmyk_y cmyk == 0 /\
    0 <= cmyk_k cmyk <= 1.
Proof.
  intros Hv. unfold RGBToCMYK.
  assert (Hvalid : isValidRgb v v v = true).
  { unfold isValidRgb. destruct Hv as [H0 H1].
    rewrite !(proj2 (Qle_bool_iff _ _) H0), !(proj2 (Qle_bool_iff _ _) H1).
    reflexivity. }
  rewrite Hvalid. cbn [negb].
  set (c0 := 1 - v / 255).
  assert (Ek : Qmin c0 (Qmin c0 c0) == c0).
  { rewrite !Q.min_id. reflexivity. }
  destruct (provisional_unit v Hv) as [Hc0 Hc1]. fold c0 in Hc0, Hc1.
  destruct (Qeq_bool (Qmin c0 (Qmin c0 c0)) 1) eqn:Hk.
  - rewrite (rgbToCmyk_black v v v Hk). eexists. split; [reflexivity|]. cbn.
    repeat split; try reflexivity; discriminate.
  - rewrite (rgbToCmyk_general v v v Hk). eexists. split; [reflexivity|]. cbn.
    fold c0.
    assert (Hz : round2 ((c0 - Qmin c0 (Qmin c0 c0)) / (1 - Qmin c0 (Qmin c0 c0))) == 0).
    { apply round2_zero, rescaled_zero. symmetry. exact Ek. }
    repeat split; try exact Hz; apply round2_unit; rewrite Ek; split; assumption.
Qed.

Lemma RGBToCMYK_grey_witness :
  exists cmyk : CMYKColor,
    RGBToCMYK 128 128 128 = Some (Ok cmyk) /\
    cmyk_c cmyk == 0 /\ cmyk_m cmyk == 0 /\ cmyk_y cmyk == 0 /\
    0 <= cmyk_k cmyk <= 1.
Proof.
  apply (RGBToCMYK_grey 128). split; discriminate.
Defined.

(** ** Dichromacy simulation: greys and the formula *)

Lemma simulate_grey (type : ColorBlindnessType) (v : Q) :
  simulateColorBlindness [v; v; v] type
  = Some [Math_round v; Math_round v; Math_round v].
Proof.
  assert (E : forall a b c : Q, a + b + c == 1 ->
            Math_round (v * a + v * b + v * c) = Math_round v).
  { intros a b c H. apply Math_round_comp.
    setoid_replace (v * a + v * b + v * c) with (v * (a + b + c)) by ring.
    rewrite H. ring. }
  unfold simulateColorBlindness. cbn [map].
  destruct type; cbv [matrices entry nth];
    repeat match goal with
           | |- context [Math_round (v * ?a + v * ?b + v * ?c)] =>
               rewrite (E a b c) by reflexivity
           end; reflexivity.
Qed.

(** A grey with an integer channel in [0,255] is simulated as itself, for
    each of the three matrices. *)
Theorem simulateColorBlindness_grey (type : ColorBlindnessType) (v : Z) :
  (0 <= v <= 255)%Z ->
  simulateColorBlindness [inject_Z v; inject_Z v; inject_Z v] type
  = Some [v; v; v].
Proof.
  intros _. rewrite simulate_grey, Math_round_inject_Z. reflexivity.
Qed.

Lemma simulateColorBlindness_grey_witness :
  (0 <= 128 <= 255)%Z /\
  simulateColorBlindness [inject_Z 128; inject_Z 128; inject_Z 128] tritanopia
  = Some [128; 128; 128]%Z.
Proof.
  split; [lia|]. apply (simulateColorBlindness_grey tritanopia 128). lia.
Defined.

Lemma simulate_channels_bytes (type : ColorBlindnessType) (r g b : Z) :
  (0 <= r <= 255)%Z -> (0 <= g <= 255)%Z -> (0 <= b <= 255)%Z ->
  exists r' g' b' : Z,
    simulateColorBlindness [inject_Z r; inject_Z g; inject_Z b] type
    = Some [r'; g'; b'] /\
    (0 <= r' <= 255)%Z /\ (0 <= g' <= 255)%Z /\ (0 <= b' <= 255)%Z.
Proof.
  intros Hr Hg Hb.
  pose proof (inject_Z_range r Hr) as Qr.
  pose proof (inject_Z_range g Hg) as Qg.
  pose proof (inject_Z_range b Hb) as Qb.
  unfold simulateColorBlindness. cbv [map].
  eexists _, _, _. split; [reflexivity|].
  destruct type; cbv [matrices entry nth];
    repeat split; apply convex_channel; try assumption;
      try discriminate; reflexivity.
Qed.

(** [SimulateColorBlindness] on a valid colour and one of the three type
    names returns a valid colour; on a grey it returns the grey itself, in
    lower case. *)
Theorem SimulateColorBlindness_valid
    (color type : string) (t : ColorBlindnessType) :
  isValidHexColor color = true -> typeOfString type = Some t ->
  exists (out : string) (r g b : Z),
    SimulateColorBlindness color type = Some (Ok out) /\
    isValidHexColor out = true /\
    hexToRgb out = Some [r; g; b] /\
    (forall v : Z, hexToRgb color = Some [v; v; v] -> out = toLowerCase color).
Proof.
  intros V Ht.
  destruct (valid_hex_channels color V)
    as (r & g & b & P & Hr & Hg & Hb & S & _).
  destruct (simulate_channels_bytes t r g b Hr Hg Hb)
    as (r' & g' & b' & E & Hr' & Hg' & Hb').
  destruct (rgbToHex_bytes r' g' b' Hr' Hg' Hb') as [Vo Po].
  exists (rgbToHex [inject_Z r'; inject_Z g'; inject_Z b']), r', g', b'.
  split.
  { unfold SimulateColorBlindness. rewrite V, Ht, P. cbn [negb map].
    rewrite E. reflexivity. }
  split; [exact Vo|]. split; [exact Po|].
  intros v Pv. rewrite P in Pv. injection Pv as -> -> ->.
  rewrite simulate_grey, !Math_round_inject_Z in E.
  injection E as <- <- <-. exact S.
Qed.

Lemma SimulateColorBlindness_valid_witness :
  exists (out : string) (r g b : Z),
    SimulateColorBlindness "#FF8800" "deuteranopia" = Some (Ok out) /\
    isValidHexColor out = true /\
    hexToRgb out = Some [r; g; b] /\
    (forall v : Z, hexToRgb "#FF8800" = Some [v; v; v] ->
     out = toLowerCase "#FF8800").
Proof.
  apply (SimulateColorBlindness_valid "#FF8800" "deuteranopia" deuteranopia);
    reflexivity.
Defined.

Example SimulateColorBlindness_red :
  SimulateColorBlindness "#FF0000" "protanopia" = Some (Ok "#918e00"%string).
Proof. vm_compute. reflexivity. Qed.

(** ** Accessibility: order of the levels, suggested text colour *)

Local Open Scope R_scope.

Lemma checkAccessibility_ratio (f b : string) (q : R)
    (level : WCAGLevel) (size : TextSize) :
  calculateContrastRatio f b = Some q ->
  checkAccessibility f b level size
  = Some (Rge_bool q
            match level, size with
            | AA, large => 3.0
            | AA, small => 4.5
            | AAA, large => 4.5
            | AAA, small => 7.0
            end).
Proof.
  intro E. unfold checkAccessibility. rewrite E.
  destruct level, size; reflexivity.
Qed.

Lemma Rge_bool_mono (q s t : R) :
  t <= s -> Rge_bool q s = true -> Rge_bool q t = true.
Proof.
  intros Hts H. apply Rge_bool_true_iff in H. apply Rge_bool_true_iff. lra.
Qed.

Lemma IsAccessible_valid (f b : string) (level : WCAGLevel) (size : TextSize)
    (ls ss : string) :
  isValidHexColor f = true -> isValidHexColor b = true ->
  levelOfString ls = Some level -> sizeOfString ss = Some size ->
  exists q : R,
    calculateContrastRatio f b = Some q /\
    calculateContrastRatio b f = Some q /\
    IsAccessible f b ls ss
    = Some (Ok (Rge_bool q
                  match level, size with
                  | AA, large => 3.0
                  | AA, small => 4.5
                  | AAA, large => 4.5
                  | AAA, small => 7.0
                  end)).
Proof.
  intros Vf Vb Hl Hs.
  destruct (calculateContrastRatio_valid f b Vf Vb) as (q & E1 & E2 & _).
  exists q. split; [exact E1|]. split; [exact E2|].
  unfold IsAccessible. rewrite Vf, Vb, Hl, Hs. cbn [negb orb].
  rewrite (checkAccessibility_ratio f b q level size E1). reflexivity.
Qed.

(** [IsAccessible] on valid colours: the answer does not depend on which of
    the two colours is the foreground; passing AAA small implies passing
    every other level and size, passing AA small implies passing AA large,
    and AAA large passes exactly when AA small does. *)
Theorem IsAccessible_levels (f b : string) :
  isValidHexColor f = true -> isValidHexColor b = true ->
  (forall level size : string,
     levelOfString level <> None -> sizeOfString size <> None ->
     IsAccessible f b level size = IsAccessible b f level size) /\
  (IsAccessible f b "AAA" "small" = Some (Ok true) ->
   IsAccessible f b "AAA" "large" = Some (Ok true) /\
   IsAccessible f b "AA" "small" = Some (Ok true) /\
   IsAccessible f b "AA" "large" = Some (Ok true)) /\
  (IsAccessible f b "AA" "small" = Some (Ok true) ->
   IsAccessible f b "AA" "large" = Some (Ok true)) /\
  (IsAccessible f b "AAA" "large" = Some (Ok true) <->
   IsAccessible f b "AA" "small" = Some (Ok true)).
Proof.
  intros Vf Vb.
  destruct (IsAccessible_valid f b AAA small "AAA" "small" Vf Vb eq_refl eq_refl)
    as (q & E1 & E2 & I1).
  destruct (IsAccessible_valid f b AAA large "AAA" "large" Vf Vb eq_refl eq_refl)
    as (q2 & E1' & _ & I2). rewrite E1 in E1'. injection E1' as <-.
  destruct (IsAccessible_valid f b AA small "AA" "small" Vf Vb eq_refl eq_refl)
    as (q3 & E1' & _ & I3). rewrite E1 in E1'. injection E1' as <-.
  destruct (IsAccessible_valid f b AA large "AA" "large" Vf Vb eq_refl eq_refl)
    as (q4 & E1' & _ & I4). rewrite E1 in E1'. injection E1' as <-.
  assert (Hinj : forall x : bool, Some (Ok x) = Some (Ok true) -> x = true).
  { intros x H. injection H. auto. }
  split.
  { intros level size Hl Hs.
    destruct (levelOfString level) as [lv|] eqn:El; [|congruence].
    destruct (sizeOfString size) as [sz|] eqn:Es; [|congruence].
    destruct (IsAccessible_valid f b lv sz level size Vf Vb El Es)
      as (q5 & Ea & _ & Ia).
    destruct (IsAccessible_valid b f lv sz level size Vb Vf El Es)
      as (q6 & Eb & _ & Ib).
    rewrite E2 in Eb. injection Eb as <-.
    rewrite E1 in Ea. injection Ea as <-.
    rewrite Ia, Ib. reflexivity. }
  rewrite I1, I2, I3, I4.
  split.
  { intro H. apply Hinj in H.
    rewrite (Rge_bool_mono q 7.0 4.5), (Rge_bool_mono q 7.0 3.0);
      try assumption; try lra. auto. }
  split.
  { intro H. apply Hinj in H.
    rewrite (Rge_bool_mono q 4.5 3.0); try assumption; try lra. auto. }
  tauto.
Qed.

Lemma IsAccessible_levels_witness :
  IsAccessible "#000000" "#FFFFFF" "AAA" "small"
  = IsAccessible "#FFFFFF" "#000000" "AAA" "small".
Proof.
  apply (proj1 (IsAccessible_levels "#000000" "#FFFFFF" eq_refl eq_refl));
    discriminate.
Defined.

(** *** Suggested text colour *)

Lemma toFixed2_near (x : R) :
  0 <= x -> x - 0.005 < toFixed2 x <= x + 0.005.
Proof.
  intro H. rewrite (toFixed2_nonneg_eq x H).
  pose proof (Zfloor_bound (x * 100 + / 2)) as [H1 H2]. split; lra.
Qed.

(** The two ratios that [SuggestTextColor] compares. *)
Lemma text_contrasts (backgroundColor : string) :
  isValidHexColor backgroundColor = true ->
  exists l : R,
    0 <= l <= 1 /\
    calculateContrastRatio backgroundColor STANDARD_COLORS.BLACK
    = Some (toFixed2 ((l + 0.05) / 0.05)) /\
    calculateContrastRatio backgroundColor STANDARD_COLORS.WHITE
    = Some (toFixed2 (1.05 / (l + 0.05))) /\
    calculateContrastRatio STANDARD_COLORS.BLACK backgroundColor
    = Some (toFixed2 ((l + 0.05) / 0.05)) /\
    calculateContrastRatio STANDARD_COLORS.WHITE backgroundColor
    = Some (toFixed2 (1.05 / (l + 0.05))).
Proof.
  intro V. destruct (getLuminance_valid _ V) as (l & E & Hl).
  exists l. split; [exact Hl|].
  unfold calculateContrastRatio, STANDARD_COLORS.BLACK, STANDARD_COLORS.WHITE.
  rewrite E, luminance_black, luminance_white.
  replace (Rmax l 0) with l by (unfold Rmax; destruct (Rle_dec l 0); lra).
  replace (Rmin l 0) with 0 by (unfold Rmin; destruct (Rle_dec l 0); lra).
  replace (Rmax 0 l) with l by (unfold Rmax; destruct (Rle_dec 0 l); lra).
  replace (Rmin 0 l) with 0 by (unfold Rmin; destruct (Rle_dec 0 l); lra).
  replace (Rmax l 1) with 1 by (unfold Rmax; destruct (Rle_dec l 1); lra).
  replace (Rmin l 1) with l by (unfold Rmin; destruct (Rle_dec l 1); lra).
  replace (Rmax 1 l) with 1 by (unfold Rmax; destruct (Rle_dec 1 l); lra).
  replace (Rmin 1 l) with l by (unfold Rmin; destruct (Rle_dec 1 l); lra).
  replace (0 + 0.05) with 0.05 by lra. replace (1 + 0.05) with 1.05 by lra.
  repeat split; reflexivity.
Qed.

Lemma Rgt_bool_true_iff (x y : R) : Rgt_bool x y = true <-> y < x.
Proof.
  unfold Rgt_bool. destruct (Rgt_dec x y); split; intro H;
    try reflexivity; try discriminate; lra.
Qed.

(** One of black and white reaches 4.5 on every background. *)
Lemma black_or_white_reaches_AA (l : R) :
  0 <= l <= 1 ->
  4.5 <= toFixed2 ((l + 0.05) / 0.05) \/ 4.5 <= toFixed2 (1.05 / (l + 0.05)).
Proof.
  intro Hl.
  set (bq := (l + 0.05) / 0.05). set (wq := 1.05 / (l + 0.05)).
  assert (Hb : 1 <= bq) by (unfold bq; lra).
  assert (Hw : 1 <= wq).
  { unfold wq. apply (Rmult_le_reg_r (l + 0.05)); [lra|].
    unfold Rdiv. rewrite Rmult_assoc, Rinv_l by lra. lra. }
  assert (Hwd : wq * (l + 0.05) = 1.05).
  { unfold wq, Rdiv. rewrite Rmult_assoc, Rinv_l by lra. lra. }
  assert (Hprod : bq * wq = 21).
  { replace bq with (20 * (l + 0.05)) by (unfold bq; lra).
    replace (20 * (l + 0.05) * wq) with (20 * (wq * (l + 0.05))) by ring.
    rewrite Hwd. lra. }
  pose proof (toFixed2_near bq ltac:(lra)) as Nb.
  pose proof (toFixed2_near wq ltac:(lra)) as Nw.
  destruct (Rle_lt_dec 4.5 (toFixed2 bq)) as [H|H]; [left; exact H|].
  destruct (Rle_lt_dec 4.5 (toFixed2 wq)) as [H'|H']; [right; exact H'|].
  exfalso. assert (Hb' : bq < 4.505) by lra. assert (Hw' : wq < 4.505) by lra.
  nra.
Qed.

Lemma luminance_grey_80 :
  exists l : R, getLuminance "#808080" = Some l /\ 0.2 < l < 0.25.
Proof.
  eexists. split.
  - unfold getLuminance.
    change (hexToRgb "#808080") with (Some [128; 128; 128]%Z).
    cbn [map]. reflexivity.
  - unfold linearize.
    destruct (Rle_dec (128 / 255) 0.03928) as [H|_]; [lra|].
    assert (B : 0.2 < Rpower ((128 / 255 + 0.055) / 1.055) 2.4 < 0.25).
    { apply Rpower_12_5_bounds; lra. }
    lra.
Qed.

(** On mid grey neither black nor white reaches 7. *)
Lemma no_text_colour_on_grey_80 :
  SuggestTextColor "#808080" "AAA" = Some (Ok noTextColor).
Proof.
  destruct luminance_grey_80 as (l & E & Hl).
  unfold SuggestTextColor. cbn [isValidHexColor negb levelOfString].
  change (isValidHexColor "#808080") with true.
  change (levelOfString "AAA") with (Some AAA). cbn [negb].
  unfold calculateContrastRatio, STANDARD_COLORS.BLACK, STANDARD_COLORS.WHITE.
  rewrite E, luminance_black, luminance_white.
  replace (Rmax l 0) with l by (unfold Rmax; destruct (Rle_dec l 0); lra).
  replace (Rmin l 0) with 0 by (unfold Rmin; destruct (Rle_dec l 0); lra).
  replace (Rmax l 1) with 1 by (unfold Rmax; destruct (Rle_dec l 1); lra).
  replace (Rmin l 1) with l by (unfold Rmin; destruct (Rle_dec l 1); lra).
  set (bq := (l + 0.05) / (0 + 0.05)). set (wq := (1 + 0.05) / (l + 0.05)).
  assert (Hb : 1 <= bq < 6) by (unfold bq; split; lra).
  assert (Hw : 1 <= wq < 4.2).
  { unfold wq. split.
    - apply (Rmult_le_reg_r (l + 0.05)); [lra|].
      unfold Rdiv. rewrite Rmult_assoc, Rinv_l by lra. lra.
    - apply (Rmult_lt_reg_r (l + 0.05)); [lra|].
      unfold Rdiv. rewrite Rmult_assoc, Rinv_l by lra. lra. }
  pose proof (toFixed2_near bq ltac:(lra)) as Nb.
  pose proof (toFixed2_near wq ltac:(lra)) as Nw.
  unfold WCAG_CONTRAST_RATIOS.AAA_NORMAL.
  destruct (Rge_bool (toFixed2 bq) 7.0) eqn:B7.
  { apply Rge_bool_true_iff in B7. lra. }
  destruct (Rge_bool (toFixed2 wq) 7.0) eqn:W7.
  { apply Rge_bool_true_iff in W7. lra. }
  reflexivity.
Qed.

(** [SuggestTextColor] on a valid background answers black, white or the
    message.  A suggested colour passes [checkAccessibility] as small text
    on that background at the level asked for; the message is given only
    when neither black nor white passes; at level AA it is never given, and
    at level AAA it is, on mid grey for one. *)
Theorem SuggestTextColor_sound
    (backgroundColor level : string) (lv : WCAGLevel) :
  isValidHexColor backgroundColor = true -> levelOfString level = Some lv ->
  (exists answer : string,
    SuggestTextColor backgroundColor level = Some (Ok answer) /\
    ((answer = STANDARD_COLORS.BLACK /\
      checkAccessibility STANDARD_COLORS.BLACK backgroundColor lv small
      = Some true)
     \/ (answer = STANDARD_COLORS.WHITE /\
         checkAccessibility STANDARD_COLORS.WHITE backgroundColor lv small
         = Some true)
     \/ (answer = noTextColor /\
         checkAccessibility STANDARD_COLORS.BLACK backgroundColor lv small
         = Some false /\
         checkAccessibility STANDARD_COLORS.WHITE backgroundColor lv small
         = Some false)) /\
    (lv = AA -> answer <> noTextColor))
  /\ SuggestTextColor "#808080" "AAA" = Some (Ok noTextColor).
Proof.
  intros V Hl. split; [|exact no_text_colour_on_grey_80].
  destruct (text_contrasts backgroundColor V) as (l & Hlum & EB & EW & EB' & EW').
  set (bq := toFixed2 ((l + 0.05) / 0.05)) in *.
  set (wq := toFixed2 (1.05 / (l + 0.05))) in *.
  set (t := match lv with
            | AA => 4.5
            | AAA => 7.0
            end).
  assert (CB : checkAccessibility STANDARD_COLORS.BLACK backgroundColor lv small
               = Some (Rge_bool bq t)).
  { rewrite (checkAccessibility_ratio _ _ bq lv small EB').
    unfold t. destruct lv; reflexivity. }
  assert (CW : checkAccessibility STANDARD_COLORS.WHITE backgroundColor lv small
               = Some (Rge_bool wq t)).
  { rewrite (checkAccessibility_ratio _ _ wq lv small EW').
    unfold t. destruct lv; reflexivity. }
  assert (ES : SuggestTextColor backgroundColor level
               = Some (Ok (if Rge_bool bq t && Rgt_bool bq wq
                           then STANDARD_COLORS.BLACK
                           else if Rge_bool wq t then STANDARD_COLORS.WHITE
                           else noTextColor))).
  { unfold SuggestTextColor. rewrite V, Hl, EB, EW. cbn [negb].
    unfold t, WCAG_CONTRAST_RATIOS.AAA_NORMAL, WCAG_CONTRAST_RATIOS.AA_NORMAL.
    destruct lv; reflexivity. }
  rewrite ES, CB, CW. eexists. split; [reflexivity|].
  destruct (Rge_bool bq t) eqn:Bt; destruct (Rgt_bool bq wq) eqn:Bw;
    destruct (Rge_bool wq t) eqn:Wt; cbn [andb];
    (split; [auto 10 | intros ->; try discriminate]).
  - (* black reaches the threshold, is not above white, white fails *)
    exfalso. apply Rge_bool_true_iff in Bt.
    assert (Hw : ~ t <= wq) by (intro H; apply Rge_bool_true_iff in H; congruence).
    assert (Hbw : ~ wq < bq) by (intro H; apply Rgt_bool_true_iff in H; congruence).
    lra.
  - exfalso. apply Rge_bool_true_iff in Bt.
    assert (Hw : ~ t <= wq) by (intro H; apply Rge_bool_true_iff in H; congruence).
    assert (Hbw : ~ wq < bq) by (intro H; apply Rgt_bool_true_iff in H; congruence).
    lra.
  - exfalso.
    assert (Hb : ~ 4.5 <= bq) by (intro H; apply Rge_bool_true_iff in H; unfold t in Bt; congruence).
    assert (Hw : ~ 4.5 <= wq) by (intro H; apply Rge_bool_true_iff in H; unfold t in Wt; congruence).
    destruct (black_or_white_reaches_AA l Hlum); tauto.
  - exfalso.
    assert (Hb : ~ 4.5 <= bq) by (intro H; apply Rge_bool_true_iff in H; unfold t in Bt; congruence).
    assert (Hw : ~ 4.5 <= wq) by (intro H; apply Rge_bool_true_iff in H; unfold t in Wt; congruence).
    destruct (black_or_white_reaches_AA l Hlum); tauto.
Qed.

Lemma SuggestTextColor_sound_witness :
  exists answer : string,
    SuggestTextColor "#FFFFFF" "AA" = Some (Ok answer) /\
    ((answer = STANDARD_COLORS.BLACK /\
      checkAccessibility STANDARD_COLORS.BLACK "#FFFFFF" AA small = Some true)
     \/ (answer = STANDARD_COLORS.WHITE /\
         checkAccessibility STANDARD_COLORS.WHITE "#FFFFFF" AA small
         = Some true)
     \/ (answer = noTextColor /\
         checkAccessibility STANDARD_COLORS.BLACK "#FFFFFF" AA small
         = Some false /\
         checkAccessibility STANDARD_COLORS.WHITE "#FFFFFF" AA small
         = Some false)) /\
    (AA = AA -> answer <> noTextColor).
Proof.
  exact (proj1 (SuggestTextColor_sound "#FFFFFF" "AA" AA eq_refl eq_refl)).
Defined.

(** ** Rotated hues *)

Local Open Scope Q_scope.

(** [rotateHue] keeps the sign of the sum: a non-negative sum is reduced into
    [0,360), a negative one into (-360,0], so a negative sum is not brought
    back to a hue in [0,360); the result differs from the sum by whole
    turns. *)
Theorem rotateHue_sign_of_sum (h degrees : Q) :
  (0 <= h + degrees -> 0 <= rotateHue h degrees < 360) /\
  (h + degrees < 0 -> -360 < rotateHue h degrees <= 0) /\
  congruent360 (rotateHue h degrees) (h + degrees).
Proof.
  unfold rotateHue, js_rem, Qtrunc.
  set (x := h + degrees). set (y := x / 360).
  assert (Ex : x == y * 360) by (unfold y; field).
  clearbody y. clearbody x.
  split; [|split].
  - intro Hx. assert (Hy : 0 <= y) by lra.
    rewrite (proj2 (Qle_bool_iff 0 y) Hy).
    pose proof (Qfloor_le y) as H1. pose proof (Qlt_floor y) as H2.
    rewrite inject_Z_plus in H2. change (inject_Z 1) with 1 in H2.
    set (f := inject_Z (Qfloor y)) in *. clearbody f. split; lra.
  - intro Hx. assert (Hy : y < 0) by lra.
    destruct (Qle_bool 0 y) eqn:E.
    { apply Qle_bool_iff in E. lra. }
    pose proof (Qle_ceiling y) as H1. pose proof (Qceiling_lt y) as H2.
    unfold Z.sub in H2. rewrite inject_Z_plus in H2.
    change (inject_Z (- (1))%Z) with (-1) in H2.
    set (f := inject_Z (Qceiling y)) in *. clearbody f. split; lra.
  - exists (- (if Qle_bool 0 y then Qfloor y else Qceiling y))%Z.
    rewrite inject_Z_opp. ring.
Qed.

Example rotateHue_negative : rotateHue 10 (-30) == -20.
Proof. reflexivity. Qed.

(** *** Harmony of two hues a rotation apart *)

Lemma Qlt_bool_comp (x x' y y' : Q) :
  x == x' -> y == y' -> Qlt_bool x y = Qlt_bool x' y'.
Proof.
  intros Hx Hy.
  destruct (Qlt_bool x y) eqn:E1; destruct (Qlt_bool x' y') eqn:E2;
    try reflexivity; exfalso.
  - apply Qlt_bool_iff in E1. apply Qlt_bool_false_iff in E2. lra.
  - apply Qlt_bool_iff in E2. apply Qlt_bool_false_iff in E1. lra.
Qed.

Lemma harmonyOfDistance_comp (x d : Q) :
  x == d -> harmonyOfDistance x = harmonyOfDistance d.
Proof.
  intro H. unfold harmonyOfDistance.
  rewrite (Qlt_bool_comp x d 30 30 H (Qeq_refl _)).
  assert (A : forall c, Qabs (x - c) == Qabs (d - c)).
  { intro c. rewrite H. reflexivity. }
  rewrite (Qlt_bool_comp _ _ 30 30 (A 180) (Qeq_refl _)).
  rewrite (Qlt_bool_comp _ _ 30 30 (A 120) (Qeq_refl _)).
  rewrite (Qlt_bool_comp _ _ 30 30 (A 90) (Qeq_refl _)).
  reflexivity.
Qed.

(** [harmonyOfHues] depends on the two hues through their circular distance
    only. *)
Lemma harmonyOfHues_distance (h1 h2 d : Q) :
  circularDistance h1 h2 == d -> harmonyOfHues h1 h2 = harmonyOfDistance d.
Proof.
  intro H.
  change (harmonyOfHues h1 h2)
    with (harmonyOfDistance
            (if Qlt_bool 180 (Qabs (h1 - h2)) then 360 - Qabs (h1 - h2)
             else Qabs (h1 - h2))).
  apply harmonyOfDistance_comp.
  rewrite folded_difference. exact H.
Qed.

(** The circular distance after a rotation by an angle in [0,360]. *)
Lemma circularDistance_rotated (h a : Q) :
  0 <= h < 360 -> 0 <= a <= 360 ->
  circularDistance h (rotateHue h a) == Qmin a (360 - a).
Proof.
  intros Hh Ha.
  destruct (rotateHue_cases h a Hh Ha) as [[_ E]|[_ E]];
    unfold circularDistance; rewrite E; destruct Hh, Ha;
    qabs_cases (h - (h + a)); qabs_cases (h - (h + a - 360));
    repeat match goal with
           | |- context [Qmin ?u ?v] =>
               destruct (Q.min_spec u v) as [[? ?]|[? ?]];
               generalize dependent (Qmin u v); intros
           end; lra.
Qed.

(** How [evaluateColorHarmony] labels a hue against its rotations, for a hue
    in [0,360): the half turn of [ComplementaryColor] and [TetradicScheme]
    is complementary, and the thirds of a turn of [TriadicScheme] are
    triadic.  Each of these distances is the centre of its window, 30
    degrees from either edge. *)
Theorem harmony_of_rotations (h : Q) :
  0 <= h < 360 ->
  harmonyOfHues h (rotateHue h 180) = "Complementary (high contrast)"%string /\
  harmonyOfHues h (rotateHue h 120) = "Triadic (balanced)"%string /\
  harmonyOfHues h (rotateHue h 240) = "Triadic (balanced)"%string /\
  circularDistance h (rotateHue h 180) == 180 /\
  circularDistance h (rotateHue h 120) == 120 /\
  circularDistance h (rotateHue h 240) == 120.
Proof.
  intro Hh.
  assert (D : forall a, 0 <= a <= 360 ->
            circularDistance h (rotateHue h a) == Qmin a (360 - a)).
  { intros a Ha. apply circularDistance_rotated; assumption. }
  assert (H : forall a, 0 <= a <= 360 ->
            harmonyOfHues h (rotateHue h a)
            = harmonyOfDistance (Qmin a (360 - a))).
  { intros a Ha. apply harmonyOfHues_distance, D, Ha. }
  repeat split;
    first [ rewrite H by (split; discriminate); reflexivity
          | rewrite D by (split; discriminate); reflexivity ].
Qed.

Lemma harmony_of_rotations_witness :
  harmonyOfHues 300 (rotateHue 300 180) = "Complementary (high contrast)"%string /\
  harmonyOfHues 300 (rotateHue 300 120) = "Triadic (balanced)"%string /\
  harmonyOfHues 300 (rotateHue 300 240) = "Triadic (balanced)"%string /\
  circularDistance 300 (rotateHue 300 180) == 180 /\
  circularDistance 300 (rotateHue 300 120) == 120 /\
  circularDistance 300 (rotateHue 300 240) == 120.
Proof.
  apply (harmony_of_rotations 300). split; [discriminate | reflexivity].
Defined.

(** *** Temperature of a hue and of its half turn *)

(** For a hue in [0,360), the hue and its half turn have opposite
    temperatures, except at 30 and 210 degrees, where both are cool. *)
Theorem temperature_of_half_turn (h : Q) :
  0 <= h < 360 ->
  ((h == 30 \/ h == 210) ->
   temperatureOfHue h = "Cool"%string /\
   temperatureOfHue (rotateHue h 180) = "Cool"%string) /\
  (~ (h == 30 \/ h == 210) ->
   (temperatureOfHue h = "Cool"%string /\
    temperatureOfHue (rotateHue h 180) = "Warm"%string)
   \/ (temperatureOfHue h = "Warm"%string /\
       temperatureOfHue (rotateHue h 180) = "Cool"%string)).
Proof.
  intro Hh.
  assert (H180 : 0 <= 180 <= 360) by (split; discriminate).
  pose proof (rotateHue_cases h 180 Hh H180) as Hc.
  unfold temperatureOfHue.
  set (h' := rotateHue h 180) in *. clearbody h'.
  destruct Hh as [Hh0 Hh1].
  destruct (Qle_bool 30 h) eqn:A1; destruct (Qle_bool h 210) eqn:A2;
    destruct (Qle_bool 30 h') eqn:B1; destruct (Qle_bool h' 210) eqn:B2;
    cbn [andb];
    repeat match goal with
           | H : Qle_bool _ _ = true |- _ => apply Qle_bool_iff in H
           | H : Qle_bool ?a ?b = false |- _ =>
               assert (b < a)
                 by (apply Qnot_le_lt; intro Hle;
                     apply Qle_bool_iff in Hle; congruence);
               clear H
           end;
    (split; [intros [E|E] | intro N];
     destruct Hc as [[? ?]|[? ?]];
     first [ split; reflexivity
           | left; split; reflexivity
           | right; split; reflexivity
           | exfalso; lra
           | exfalso; apply N; lra ]).
Qed.

Lemma temperature_of_half_turn_witness :
  temperatureOfHue 100 = "Cool"%string /\
  temperatureOfHue (rotateHue 100 180) = "Warm"%string.
Proof.
  destruct (proj2 (temperature_of_half_turn 100
                     (conj (Qle_bool_imp_le 0 100 eq_refl)
                           (eq_refl : 100 < 360))))
    as [H|[H _]].
  - intros [E|E]; discriminate E.
  - exact H.
  - discriminate H.
Defined.

(** ** Formulas that rotate or sweep *)

Lemma iterHue_succ (h a : Q) (i : nat) :
  iterHue h a (S i) = rotateHue (iterHue h a i) a.
Proof. reflexivity. Qed.

Lemma iterHue_shift (h a : Q) (i : nat) :
  iterHue (rotateHue h a) a i = iterHue h a (S i).
Proof.
  induction i as [|i IH]; [reflexivity|].
  rewrite iterHue_succ, IH. reflexivity.
Qed.

Lemma iterHue_congruent (h a : Q) (i : nat) :
  congruent360 (iterHue h a i - h) (inject_Z (Z.of_nat i) * a).
Proof.
  induction i as [|i IH].
  - exists 0%Z. cbn. ring.
  - rewrite iterHue_succ.
    destruct IH as [k Hk].
    destruct (rotateHue_congruent (iterHue h a i) a) as [j Hj].
    exists (k + j)%Z.
    rewrite Nat2Z.inj_succ. unfold Z.succ. rewrite !inject_Z_plus.
    change (inject_Z 1) with 1.
    set (x := iterHue h a i) in *. set (y := rotateHue x a) in *.
    set (n := inject_Z (Z.of_nat i)) in *.
    set (kk := inject_Z k) in *. set (jj := inject_Z j) in *.
    clearbody x y n kk jj. lra.
Qed.

Lemma iterHue_range (h a : Q) (i : nat) :
  0 <= h < 360 -> 0 <= a <= 360 -> 0 <= iterHue h a i < 360.
Proof.
  intros Hh Ha. induction i as [|i IH]; [exact Hh|].
  rewrite iterHue_succ. apply rotateHue_range; assumption.
Qed.

Lemma loopIndicesFrom_integer (start : nat) (n : Z) :
  loopIndicesFrom start (inject_Z n)
  = map Z.of_nat (seq start (Z.to_nat n - start)).
Proof. unfold loopIndicesFrom. rewrite Qceiling_Z. reflexivity. Qed.

Section SchemesMore.

Variable lib : HsluvLib.

(** The colour of the package at a hue, a saturation and a lightness. *)
Let colourAt (h s l : Q) : string :=
  lib_hsluvToHex lib {| hsl_h := h; hsl_s := s; hsl_l := l |}.

(** The loop of [AnalogousScheme] and [TriadicScheme], round after round. *)
Lemma rotateAndPush_rounds (angle : Q) (indices : list Z)
    (color : Hsluv) (scheme : list string) :
  snd (fold_left (fun st (_ : Z) => rotateAndPush lib angle st) indices
         (color, scheme))
  = (scheme
     ++ map (fun j => colourAt (iterHue (hsluv_h color) angle (S j))
                        (hsluv_s color) (hsluv_l color))
          (seq 0 (length indices)))%list.
Proof.
  revert color scheme. induction indices as [|i rest IH]; intros color scheme.
  - cbn. rewrite app_nil_r. reflexivity.
  - cbn [fold_left length]. unfold rotateAndPush at 2. cbn [fst snd].
    rewrite IH. cbn [hsluvToHex set_hsluv_h set_hsluv set_hex hex hsluv_h
                     hsluv_s hsluv_l].
    rewrite <- app_assoc. f_equal. cbn [app seq map]. f_equal.
    rewrite <- seq_shift, map_map.
    apply map_ext. intro j. rewrite iterHue_shift. reflexivity.
Qed.

(** [AnalogousScheme] with an integer count in [1,20] and an angle in
    [1,180] (30 when none is given) returns that many colours: the base
    colour in lower case, as the object holds it after [hexToHsluv], then
    the package's colours at the base hue rotated once, twice and so on; the hue of the colour at place i is the base hue plus i times
    the angle up to whole turns, and stays in [0,360) when the base hue is
    there. *)
Theorem AnalogousScheme_hues
    (baseColor : string) (n : Z) (angle : option Q) :
  let a := match angle with Some x => x | None => 30 end in
  let base := lib_hexToHsluv lib baseColor in
  isValidHexColor baseColor = true -> (1 <= n <= 20)%Z -> 1 <= a <= 180 ->
  exists scheme : list string,
    AnalogousScheme lib baseColor (inject_Z n) angle = Ok scheme /\
    length scheme = Z.to_nat n /\
    nth_error scheme 0 = Some (toLowerCase baseColor) /\
    (forall i : nat, (1 <= i < Z.to_nat n)%nat ->
       nth_error scheme i
       = Some (colourAt (iterHue (hsl_h base) a i) (hsl_s base) (hsl_l base))) /\
    (forall i : nat,
       congruent360 (iterHue (hsl_h base) a i - hsl_h base)
         (inject_Z (Z.of_nat i) * a)) /\
    (0 <= hsl_h base < 360 ->
     forall i : nat, 0 <= iterHue (hsl_h base) a i < 360).
Proof.
  intros a base V Hn Ha.
  set (rest := map (fun j => colourAt (iterHue (hsl_h base) a (S j))
                                (hsl_s base) (hsl_l base))
                 (seq 0 (Z.to_nat n - 1))).
  exists (toLowerCase baseColor :: rest).
  assert (Hlen : length rest = (Z.to_nat n - 1)%nat).
  { unfold rest. rewrite length_map, length_seq. reflexivity. }
  split.
  { unfold AnalogousScheme. fold a. rewrite V. cbn [negb].
    rewrite (proj2 (Qlt_bool_false_iff (inject_Z n) 1)).
    2:{ change 1 with (inject_Z 1). rewrite <- Zle_Qle. lia. }
    rewrite (proj2 (Qlt_bool_false_iff 20 (inject_Z n))).
    2:{ change 20 with (inject_Z 20). rewrite <- Zle_Qle. lia. }
    rewrite (proj2 (Qlt_bool_false_iff a 1) (proj1 Ha)).
    rewrite (proj2 (Qlt_bool_false_iff 180 a) (proj2 Ha)).
    cbn [orb]. rewrite rotateAndPush_rounds.
    rewrite loopIndicesFrom_integer, length_map, length_seq. reflexivity. }
  split; [cbn [length]; rewrite Hlen; lia|].
  split; [reflexivity|].
  split.
  { intros i Hi. destruct i as [|j]; [lia|]. cbn [nth_error].
    unfold rest. rewrite nth_error_map, nth_error_seq.
    assert (Hj : (j <? Z.to_nat n - 1)%nat = true) by (apply Nat.ltb_lt; lia).
    rewrite Hj. reflexivity. }
  split.
  { intro i. apply iterHue_congruent. }
  intros Hh i. apply iterHue_range; [exact Hh|].
  destruct Ha. split; lra.
Qed.

End SchemesMore.

Lemma AnalogousScheme_hues_witness :
  isValidHexColor "#FF0000" = true /\
  forall lib : HsluvLib,
  exists scheme : list string,
    AnalogousScheme lib "#FF0000" (inject_Z 5) None = Ok scheme /\
    length scheme = Z.to_nat 5 /\
    nth_error scheme 0 = Some "#ff0000"%string.
Proof.
  split; [reflexivity|]. intro lib.
  destruct (AnalogousScheme_hues lib "#FF0000" 5 None eq_refl)
    as (scheme & E & L & F & _).
  - lia.
  - split; discriminate.
  - exists scheme. auto.
Defined.

Section Monochromatic.

Variable lib : HsluvLib.

Let colourAt (h s l : Q) : string :=
  lib_hsluvToHex lib {| hsl_h := h; hsl_s := s; hsl_l := l |}.

(** The loop of [MonochromaticScheme] for a count other than 1. *)
Lemma monochromatic_rounds (baseHue baseSat count : Q) (indices : list Z)
    (color : Hsluv) (scheme : list string) :
  Qeq_bool count 1 = false ->
  snd (fold_left (monochromaticStep lib baseHue baseSat count) indices
         (color, scheme))
  = (scheme
     ++ map (fun i => colourAt baseHue baseSat
                        ((100 / (count - 1)) * inject_Z i)) indices)%list.
Proof.
  intro Hc. revert color scheme.
  induction indices as [|i rest IH]; intros color scheme.
  - cbn. rewrite app_nil_r. reflexivity.
  - cbn [fold_left]. unfold monochromaticStep at 2. rewrite Hc. cbn [fst snd].
    rewrite IH. cbn [hsluvToHex set_hsluv set_hex hex hsluv_h hsluv_s hsluv_l].
    rewrite <- app_assoc. reflexivity.
Qed.

(** The loop of [MonochromaticScheme] for a count of 1. *)
Lemma monochromatic_single (baseHue baseSat count : Q) (indices : list Z)
    (color : Hsluv) (scheme : list string) :
  Qeq_bool count 1 = true ->
  snd (fold_left (monochromaticStep lib baseHue baseSat count) indices
         (color, scheme))
  = (scheme
     ++ map (fun _ => colourAt baseHue baseSat (hsluv_l color)) indices)%list.
Proof.
  intro Hc. revert color scheme.
  induction indices as [|i rest IH]; intros color scheme.
  - cbn. rewrite app_nil_r. reflexivity.
  - cbn [fold_left]. unfold monochromaticStep at 2. rewrite Hc. cbn [fst snd].
    rewrite IH. cbn [hsluvToHex set_hsluv set_hex hex hsluv_h hsluv_s hsluv_l].
    rewrite <- app_assoc. reflexivity.
Qed.

(** [MonochromaticScheme] with an integer count in [1,20] returns that many
    colours, all at the hue and saturation of the base colour.  A count of 1
    gives the package's colour at the base colour's own lightness; a larger
    count sweeps the lightness in equal steps from 0 to 100, the base
    lightness playing no part. *)
Theorem MonochromaticScheme_lightness (baseColor : string) (n : Z) :
  let base := lib_hexToHsluv lib baseColor in
  isValidHexColor baseColor = true -> (1 <= n <= 20)%Z ->
  exists scheme : list string,
    MonochromaticScheme lib baseColor (inject_Z n) = Ok scheme /\
    length scheme = Z.to_nat n /\
    (n = 1%Z ->
     scheme = [colourAt (hsl_h base) (hsl_s base) (hsl_l base)]) /\
    ((2 <= n)%Z ->
     forall i : Z, (0 <= i < n)%Z ->
       let l := (100 / (inject_Z n - 1)) * inject_Z i in
       nth_error scheme (Z.to_nat i)
       = Some (colourAt (hsl_h base) (hsl_s base) l)
       /\ 0 <= l <= 100
       /\ (i = 0%Z -> l == 0) /\ (i = (n - 1)%Z -> l == 100)).
Proof.
  intros base V Hn.
  assert (G1 : Qlt_bool (inject_Z n) 1 = false).
  { apply Qlt_bool_false_iff. change 1 with (inject_Z 1).
    rewrite <- Zle_Qle. lia. }
  assert (G2 : Qlt_bool 20 (inject_Z n) = false).
  { apply Qlt_bool_false_iff. change 20 with (inject_Z 20).
    rewrite <- Zle_Qle. lia. }
  unfold MonochromaticScheme. rewrite V, G1, G2. cbn [negb orb].
  rewrite loopIndicesFrom_integer, Nat.sub_0_r.
  cbn [hexToHsluv set_hex set_hsluv hex hsluv_h hsluv_s hsluv_l new_Hsluv].
  fold base.
  destruct (Qeq_bool (inject_Z n) 1) eqn:Hc.
  - (* count = 1 *)
    assert (n = 1%Z).
    { apply (proj1 (inject_Z_injective n 1)). apply Qeq_bool_iff. exact Hc. }
    subst n. rewrite (monochromatic_single _ _ _ _ _ _ Hc).
    eexists. split; [reflexivity|]. cbn.
    split; [reflexivity|]. split; [reflexivity|]. intro; lia.
  - assert (Hn2 : (2 <= n)%Z).
    { destruct (Z.eq_dec n 1) as [->|]; [discriminate Hc|lia]. }
    rewrite (monochromatic_rounds _ _ _ _ _ _ Hc).
    eexists. split; [reflexivity|]. cbn [app].
    split; [rewrite !length_map, length_seq; reflexivity|].
    split; [intro; lia|].
    intros _ i Hi. cbv zeta.
    set (l := 100 / (inject_Z n - 1) * inject_Z i).
    assert (Hd : 0 < inject_Z n - 1).
    { assert (H2 : 2 <= inject_Z n).
      { change 2 with (inject_Z 2). rewrite <- Zle_Qle. lia. }
      lra. }
    assert (Hi0 : 0 <= inject_Z i).
    { change 0 with (inject_Z 0). rewrite <- Zle_Qle. lia. }
    assert (Hi1 : inject_Z i <= inject_Z n - 1).
    { assert (H : inject_Z i <= inject_Z (n - 1)) by (rewrite <- Zle_Qle; lia).
      unfold Z.sub in H. rewrite inject_Z_plus in H.
      change (inject_Z (- (1))%Z) with (-1) in H. lra. }
    assert (El : l == 100 * inject_Z i / (inject_Z n - 1)).
    { unfold l. field. lra. }
    split.
    { rewrite !nth_error_map, nth_error_seq.
      assert (Hlt : (Z.to_nat i <? Z.to_nat n)%nat = true)
        by (apply Nat.ltb_lt; lia).
      rewrite Hlt. cbn [option_map Nat.add]. rewrite Z2Nat.id by lia.
      reflexivity. }
    split.
    { rewrite El. split.
      - apply Qle_shift_div_l; [exact Hd|]. lra.
      - apply Qle_shift_div_r; [exact Hd|]. lra. }
    split.
    { intros ->. rewrite El. change (inject_Z 0) with 0. field. lra. }
    intros ->. rewrite El.
    assert (E1 : inject_Z (n - 1) == inject_Z n - 1).
    { unfold Z.sub. rewrite inject_Z_plus. reflexivity. }
    rewrite E1. field. lra.
Qed.

End Monochromatic.

Lemma MonochromaticScheme_lightness_witness :
  isValidHexColor "#336699" = true /\
  forall lib : HsluvLib,
  exists scheme : list string,
    MonochromaticScheme lib "#336699" (inject_Z 5) = Ok scheme /\
    length scheme = Z.to_nat 5.
Proof.
  split; [reflexivity|]. intro lib.
  destruct (MonochromaticScheme_lightness lib "#336699" 5 eq_refl)
    as (scheme & E & L & _).
  - lia.
  - exists scheme. auto.
Defined.

(** ** Complement and adjustments *)

Lemma clamp100_cases (x : Q) :
  0 <= clamp100 x <= 100 /\
  (0 <= x <= 100 -> clamp100 x == x) /\
  (x <= 0 -> clamp100 x == 0) /\
  (100 <= x -> clamp100 x == 100).
Proof.
  unfold clamp100.
  destruct (Q.min_spec 100 x) as [[H1 E1]|[H1 E1]];
    destruct (Q.max_spec 0 (Qmin 100 x)) as [[H2 E2]|[H2 E2]];
    rewrite E2; rewrite ?E1 in *; repeat split; intros; lra.
Qed.

Section Adjustments.

Variable lib : HsluvLib.

(** [ComplementaryColor] returns the package's colour at the base hue turned
    by 180 degrees, with the saturation and lightness of the base colour.
    For a base hue in [0,360) the turned hue is in [0,360) too, at circular
    distance 180, and turning it again gives the base hue back. *)
Theorem ComplementaryColor_half_turn (hex : string) :
  let base := lib_hexToHsluv lib hex in
  let h' := rotateHue (hsl_h base) 180 in
  isValidHexColor hex = true ->
  ComplementaryColor lib hex
  = Ok (lib_hsluvToHex lib
          {| hsl_h := h'; hsl_s := hsl_s base; hsl_l := hsl_l base |}) /\
  (0 <= hsl_h base < 360 ->
   0 <= h' < 360 /\
   circularDistance (hsl_h base) h' == 180 /\
   rotateHue h' 180 == hsl_h base).
Proof.
  intros base h' V. split.
  - unfold ComplementaryColor. rewrite V. reflexivity.
  - intro Hh.
    assert (H180 : 0 <= 180 <= 360) by (split; discriminate).
    pose proof (rotateHue_range _ 180 Hh H180) as Hr. fold h' in Hr.
    pose proof (rotateHue_cases _ 180 Hh H180) as Hc. fold h' in Hc.
    pose proof (rotateHue_cases h' 180 Hr H180) as Hc'.
    split; [exact Hr|]. split.
    + unfold h'.
      apply (Qeq_trans _ _ _ (circularDistance_rotated _ 180 Hh H180)).
      reflexivity.
    + set (h := hsl_h base) in *. set (h'' := rotateHue h' 180) in *.
      clearbody h h' h''. destruct Hh, Hr.
      destruct Hc as [[? ?]|[? ?]]; destruct Hc' as [[? ?]|[? ?]]; lra.
Qed.

(** [AdjustBrightness] and [AdjustSaturation] hand the package the base
    colour with its lightness, respectively saturation, moved by the
    adjustment and cut to [0,100]: the value handed over is never outside
    [0,100], whatever the adjustment. *)
Theorem Adjust_clamps (color : string) (adjustment : Q) :
  let base := lib_hexToHsluv lib color in
  let l' := clamp100 (hsl_l base + adjustment) in
  let s' := clamp100 (hsl_s base + adjustment) in
  isValidHexColor color = true ->
  AdjustBrightness lib color adjustment
  = Ok (lib_hsluvToHex lib
          {| hsl_h := hsl_h base; hsl_s := hsl_s base; hsl_l := l' |}) /\
  AdjustSaturation lib color adjustment
  = Ok (lib_hsluvToHex lib
          {| hsl_h := hsl_h base; hsl_s := s'; hsl_l := hsl_l base |}) /\
  0 <= l' <= 100 /\ 0 <= s' <= 100 /\
  (0 <= hsl_l base + adjustment <= 100 -> l' == hsl_l base + adjustment) /\
  (0 <= hsl_s base + adjustment <= 100 -> s' == hsl_s base + adjustment) /\
  (hsl_l base + adjustment <= 0 -> l' == 0) /\
  (100 <= hsl_l base + adjustment -> l' == 100) /\
  (hsl_s base + adjustment <= 0 -> s' == 0) /\
  (100 <= hsl_s base + adjustment -> s' == 100).
Proof.
  intros base l' s' V.
  destruct (clamp100_cases (hsl_l base + adjustment)) as (L1 & L2 & L3 & L4).
  destruct (clamp100_cases (hsl_s base + adjustment)) as (S1 & S2 & S3 & S4).
  split; [unfold AdjustBrightness; rewrite V; reflexivity|].
  split; [unfold AdjustSaturation; rewrite V; reflexivity|].
  repeat split; try apply L1; try apply S1; assumption.
Qed.

End Adjustments.

Lemma ComplementaryColor_half_turn_witness :
  isValidHexColor "#FF0000" = true /\
  forall lib : HsluvLib,
    ComplementaryColor lib "#FF0000"
    = Ok (lib_hsluvToHex lib
            {| hsl_h := rotateHue (hsl_h (lib_hexToHsluv lib "#FF0000")) 180;
               hsl_s := hsl_s (lib_hexToHsluv lib "#FF0000");
               hsl_l := hsl_l (lib_hexToHsluv lib "#FF0000") |}).
Proof.
  split; [reflexivity|]. intro lib.
  exact (proj1 (ComplementaryColor_half_turn lib "#FF0000" eq_refl)).
Defined.

Lemma Adjust_clamps_witness :
  isValidHexColor "#FF0000" = true /\
  forall lib : HsluvLib,
    0 <= clamp100 (hsl_l (lib_hexToHsluv lib "#FF0000") + 250) <= 100.
Proof.
  split; [reflexivity|]. intro lib.
  destruct (Adjust_clamps lib "#FF0000" 250 eq_refl) as (_ & _ & H & _).
  exact H.
Defined.

Example half_turn_twice : rotateHue (rotateHue 300 180) 180 == 300.
Proof. reflexivity. Qed.

(** ** Gradient colours, fractional counts, invalid colours *)

(** What [LinearGradient] returns once its arguments pass the checks. *)
Lemma LinearGradient_checked (color1 color2 : string) (steps : Q)
    (r1 g1 b1 r2 g2 b2 : Z) :
  isValidHexColor color1 = true -> isValidHexColor color2 = true ->
  2 <= steps <= 100 ->
  hexToRgb color1 = Some [r1; g1; b1] -> hexToRgb color2 = Some [r2; g2; b2] ->
  LinearGradient color1 color2 steps
  = Some (Ok (map (gradientStep r1 g1 b1 r2 g2 b2 steps) (loopIndices steps))).
Proof.
  intros V1 V2 [H2 H100] P1 P2.
  unfold LinearGradient. rewrite V1, V2. cbn [negb orb].
  rewrite (proj2 (Qlt_bool_false_iff steps 2) H2).
  rewrite (proj2 (Qlt_bool_false_iff 100 steps) H100).
  rewrite P1, P2. reflexivity.
Qed.

Lemma gradient_ratio_unit (n i : Z) :
  (2 <= n)%Z -> (0 <= i < n)%Z -> 0 <= inject_Z i / (inject_Z n - 1) <= 1.
Proof.
  intros Hn Hi.
  assert (H2 : 2 <= inject_Z n).
  { change 2 with (inject_Z 2). rewrite <- Zle_Qle. lia. }
  assert (Hi0 : 0 <= inject_Z i).
  { change 0 with (inject_Z 0). rewrite <- Zle_Qle. lia. }
  assert (Hi1 : inject_Z i <= inject_Z n - 1).
  { assert (H : inject_Z i <= inject_Z (n - 1)) by (rewrite <- Zle_Qle; lia).
    unfold Z.sub in H. rewrite inject_Z_plus in H.
    change (inject_Z (- (1))%Z) with (-1) in H. lra. }
  set (x := inject_Z i) in *. set (y := inject_Z n) in *. clearbody x y.
  split.
  - apply Qle_shift_div_l; lra.
  - apply Qle_shift_div_r; lra.
Qed.

(** Every colour of a gradient with an integer number of steps is a valid
    colour, and each of its channels lies between the corresponding channels
    of the two end colours. *)
Theorem LinearGradient_colours_between (color1 color2 : string) (n : Z) :
  isValidHexColor color1 = true -> isValidHexColor color2 = true ->
  (2 <= n <= 100)%Z ->
  exists (r1 g1 b1 r2 g2 b2 : Z) (gradient : list string),
    hexToRgb color1 = Some [r1; g1; b1] /\
    hexToRgb color2 = Some [r2; g2; b2] /\
    LinearGradient color1 color2 (inject_Z n) = Some (Ok gradient) /\
    forall i : Z, (0 <= i < n)%Z ->
      exists (colour : string) (m1 m2 m3 : Z),
        nth_error gradient (Z.to_nat i) = Some colour /\
        isValidHexColor colour = true /\
        hexToRgb colour = Some [m1; m2; m3] /\
        (Z.min r1 r2 <= m1 <= Z.max r1 r2)%Z /\
        (Z.min g1 g2 <= m2 <= Z.max g1 g2)%Z /\
        (Z.min b1 b2 <= m3 <= Z.max b1 b2)%Z.
Proof.
  intros V1 V2 Hn.
  destruct (valid_hex_channels color1 V1)
    as (r1 & g1 & b1 & P1 & Hr1 & Hg1 & Hb1 & _).
  destruct (valid_hex_channels color2 V2)
    as (r2 & g2 & b2 & P2 & Hr2 & Hg2 & Hb2 & _).
  exists r1, g1, b1, r2, g2, b2. eexists.
  split; [exact P1|]. split; [exact P2|].
  assert (Hs : 2 <= inject_Z n <= 100).
  { split; [change 2 with (inject_Z 2) | change 100 with (inject_Z 100)];
      rewrite <- Zle_Qle; lia. }
  split; [apply (LinearGradient_checked _ _ _ _ _ _ _ _ _ V1 V2 Hs P1 P2)|].
  intros i Hi.
  pose proof (gradient_ratio_unit n i ltac:(lia) Hi) as Ht.
  pose proof (mixed_channel_between r1 r2 _ Ht) as M1.
  pose proof (mixed_channel_between g1 g2 _ Ht) as M2.
  pose proof (mixed_channel_between b1 b2 _ Ht) as M3.
  set (t := inject_Z i / (inject_Z n - 1)) in *.
  set (m1 := Math_round (inject_Z r1 * (1 - t) + inject_Z r2 * t)) in *.
  set (m2 := Math_round (inject_Z g1 * (1 - t) + inject_Z g2 * t)) in *.
  set (m3 := Math_round (inject_Z b1 * (1 - t) + inject_Z b2 * t)) in *.
  destruct (rgbToHex_bytes m1 m2 m3 ltac:(lia) ltac:(lia) ltac:(lia)) as [Vm Pm].
  exists (rgbToHex [inject_Z m1; inject_Z m2; inject_Z m3]), m1, m2, m3.
  split.
  { rewrite loopIndices_integer, !nth_error_map, nth_error_seq.
    assert (Hlt : (Z.to_nat i <? Z.to_nat n)%nat = true)
      by (apply Nat.ltb_lt; lia).
    rewrite Hlt. cbn [option_map Nat.add]. rewrite Z2Nat.id by lia.
    reflexivity. }
  auto.
Qed.

Lemma LinearGradient_colours_between_witness :
  exists (r1 g1 b1 r2 g2 b2 : Z) (gradient : list string),
    hexToRgb "#102030" = Some [r1; g1; b1] /\
    hexToRgb "#F0E0D0" = Some [r2; g2; b2] /\
    LinearGradient "#102030" "#F0E0D0" (inject_Z 7) = Some (Ok gradient) /\
    forall i : Z, (0 <= i < 7)%Z ->
      exists (colour : string) (m1 m2 m3 : Z),
        nth_error gradient (Z.to_nat i) = Some colour /\
        isValidHexColor colour = true /\
        hexToRgb colour = Some [m1; m2; m3] /\
        (Z.min r1 r2 <= m1 <= Z.max r1 r2)%Z /\
        (Z.min g1 g2 <= m2 <= Z.max g1 g2)%Z /\
        (Z.min b1 b2 <= m3 <= Z.max b1 b2)%Z.
Proof.
  apply (LinearGradient_colours_between "#102030" "#F0E0D0" 7);
    [reflexivity | reflexivity | lia].
Defined.

Lemma gradient_fractional_steps :
  LinearGradient "#000000" "#FFFFFF" (5 # 2)
  = Some (Ok ["#000000"; "#aaaaaa"; "#154154154"]%string).
Proof. vm_compute. reflexivity. Qed.

Section FractionalCounts.

Variable lib : HsluvLib.

(** A count that is not an integer is not rejected: [LinearGradient],
    [MonochromaticScheme] and [AnalogousScheme] then return as many colours
    as the count rounded up.  The last step of such a gradient lies beyond
    the second colour and need not be a valid colour: from black to white in
    2.5 steps it is written with nine digits. *)
Theorem fractional_counts_round_up
    (color1 color2 : string) (steps count : Q) :
  isValidHexColor color1 = true -> isValidHexColor color2 = true ->
  2 <= steps <= 100 -> 1 <= count <= 20 ->
  (exists gradient : list string,
     LinearGradient color1 color2 steps = Some (Ok gradient) /\
     length gradient = Z.to_nat (Qceiling steps)) /\
  (exists scheme : list string,
     MonochromaticScheme lib color1 count = Ok scheme /\
     length scheme = Z.to_nat (Qceiling count)) /\
  (exists scheme : list string,
     AnalogousScheme lib color1 count None = Ok scheme /\
     length scheme = Z.to_nat (Qceiling count)) /\
  LinearGradient "#000000" "#FFFFFF" (5 # 2)
  = Some (Ok ["#000000"; "#aaaaaa"; "#154154154"]%string).
Proof.
  intros V1 V2 Hs Hc.
  destruct (valid_hex_channels color1 V1) as (r1 & g1 & b1 & P1 & _).
  destruct (valid_hex_channels color2 V2) as (r2 & g2 & b2 & P2 & _).
  assert (G1 : Qlt_bool count 1 = false) by (apply Qlt_bool_false_iff, Hc).
  assert (G2 : Qlt_bool 20 count = false) by (apply Qlt_bool_false_iff, Hc).
  assert (Hceil : (1 <= Qceiling count)%Z).
  { assert (H : (0 < Qceiling count)%Z); [|lia].
    rewrite Zlt_Qlt. apply Qlt_le_trans with count; [|apply Qle_ceiling].
    destruct Hc. change (inject_Z 0) with 0. lra. }
  split; [|split; [|split; [|exact gradient_fractional_steps]]].
  - eexists. split;
      [apply (LinearGradient_checked _ _ _ _ _ _ _ _ _ V1 V2 Hs P1 P2)|].
    unfold loopIndices. rewrite !length_map, length_seq. reflexivity.
  - unfold MonochromaticScheme. rewrite V1, G1, G2. cbn [negb orb].
    eexists. split; [reflexivity|].
    destruct (Qeq_bool count 1) eqn:E.
    + rewrite (monochromatic_single lib _ _ _ _ _ _ E).
      unfold loopIndicesFrom. cbn [app].
      rewrite !length_map, length_seq. lia.
    + rewrite (monochromatic_rounds lib _ _ _ _ _ _ E).
      unfold loopIndicesFrom. cbn [app].
      rewrite !length_map, length_seq. lia.
  - unfold AnalogousScheme. rewrite V1, G1, G2. cbn [negb orb].
    change (Qlt_bool 30 1 || Qlt_bool 180 30) with false. cbv iota.
    eexists. split; [reflexivity|].
    rewrite rotateAndPush_rounds. unfold loopIndicesFrom.
    rewrite length_app, !length_map, !length_seq. cbn [length]. lia.
Qed.

End FractionalCounts.

Lemma fractional_counts_round_up_witness :
  (2 <= 5 # 2 <= 100 /\ 1 <= 3 # 2 <= 20) /\
  forall lib : HsluvLib,
    (exists gradient : list string,
       LinearGradient "#000000" "#FFFFFF" (5 # 2) = Some (Ok gradient) /\
       length gradient = Z.to_nat (Qceiling (5 # 2))) /\
    (exists scheme : list string,
       MonochromaticScheme lib "#000000" (3 # 2) = Ok scheme /\
       length scheme = Z.to_nat (Qceiling (3 # 2))).
Proof.
  assert (Hs : 2 <= 5 # 2 <= 100) by (split; discriminate).
  assert (Hc : 1 <= 3 # 2 <= 20) by (split; discriminate).
  split; [split; assumption|]. intro lib.
  destruct (fractional_counts_round_up lib "#000000" "#FFFFFF" (5 # 2) (3 # 2)
              eq_refl eq_refl Hs Hc) as (G & M & _).
  split; assumption.
Defined.

(** ** Colour names *)

(** Two hexadecimal digits, upper-cased, are the upper-case digits of the
    byte they parse to. *)
Lemma parseInt16_upper (c1 c2 : ascii) :
  isHexDigit c1 = true -> isHexDigit c2 = true ->
  exists v : Z,
    parseInt16 (c1, c2) = Some v /\ (0 <= v <= 255)%Z /\
    (toUpperAscii c1, toUpperAscii c2) = upperByte v /\
    isAscii c1 = true /\ isAscii c2 = true.
Proof.
  intros H1 H2.
  destruct c1 as [[] [] [] [] [] [] [] []]; try discriminate H1;
    destruct c2 as [[] [] [] [] [] [] [] []]; try discriminate H2;
      (eexists; split; [reflexivity|];
       split; [split; discriminate | repeat split; reflexivity]).
Qed.

Lemma valid_hex_upper (hex : string) :
  isValidHexColor hex = true ->
  exists r g b : Z,
    hexToRgb hex = Some [r; g; b] /\
    (0 <= r <= 255)%Z /\ (0 <= g <= 255)%Z /\ (0 <= b <= 255)%Z /\
    toUpperCase hex = upperHex r g b /\
    forallb isAscii (list_ascii_of_string hex) = true.
Proof.
  unfold isValidHexColor.
  destruct hex as [|c0 rest]; [discriminate|].
  destruct (Ascii.eqb c0 "#") eqn:E0.
  2:{ destruct c0 as [[] [] [] [] [] [] [] []]; try discriminate; discriminate E0. }
  apply Ascii.eqb_eq in E0. subst c0.
  destruct rest as [|c1 [|c2 [|c3 [|c4 [|c5 [|c6 [|c7 rest]]]]]]];
    try discriminate.
  cbn [String.length Nat.eqb andb list_ascii_of_string forallb].
  rewrite !andb_true_iff. intros (D1 & D2 & D3 & D4 & D5 & D6 & _).
  destruct (parseInt16_upper c1 c2 D1 D2) as (r & Pr & Rr & Ur & A1 & A2).
  destruct (parseInt16_upper c3 c4 D3 D4) as (g & Pg & Rg & Ug & A3 & A4).
  destruct (parseInt16_upper c5 c6 D5 D6) as (b & Pb & Rb & Ub & A5 & A6).
  exists r, g, b.
  split.
  { unfold hexToRgb. cbn [stripHash list_ascii_of_string chunks2 mapM].
    rewrite Pr, Pg, Pb. reflexivity. }
  repeat (split; [assumption|]).
  split.
  - unfold upperHex. rewrite <- Ur, <- Ug, <- Ub. reflexivity.
  - rewrite A1, A2, A3, A4, A5, A6. reflexivity.
Qed.

Lemma upperByte_distinct_all :
  forallb (fun v => forallb (fun w => (v =? w)%Z
                                      || negb (pairEqb (upperByte v) (upperByte w)))
                      (rangeZ 256))
    (rangeZ 256) = true.
Proof. vm_compute. reflexivity. Qed.

Lemma upperByte_injective (v w : Z) :
  (0 <= v <= 255)%Z -> (0 <= w <= 255)%Z ->
  upperByte v = upperByte w -> v = w.
Proof.
  intros Hv Hw E.
  pose proof (rangeZ_forallb 256 _ upperByte_distinct_all v ltac:(lia)) as H.
  cbv beta in H.
  pose proof (rangeZ_forallb 256 _ H w ltac:(lia)) as H'. cbv beta in H'.
  apply orb_true_iff in H'. destruct H' as [H'|H'].
  - apply Z.eqb_eq in H'. exact H'.
  - rewrite E in H'. unfold pairEqb in H'. rewrite !Ascii.eqb_refl in H'.
    discriminate H'.
Qed.

Lemma upperHex_eqb (kr kg kb r g b : Z) :
  (0 <= kr <= 255)%Z -> (0 <= kg <= 255)%Z -> (0 <= kb <= 255)%Z ->
  (0 <= r <= 255)%Z -> (0 <= g <= 255)%Z -> (0 <= b <= 255)%Z ->
  String.eqb (upperHex kr kg kb) (upperHex r g b)
  = ((kr =? r) && (kg =? g) && (kb =? b))%Z.
Proof.
  intros Hkr Hkg Hkb Hr Hg Hb.
  destruct (String.eqb_spec (upperHex kr kg kb) (upperHex r g b)) as [E|N].
  - unfold upperHex, upperByte in E. cbn [fst snd] in E.
    injection E as E1 E2 E3 E4 E5 E6.
    assert (Er : kr = r).
    { apply upperByte_injective; try assumption.
      unfold upperByte. congruence. }
    assert (Eg : kg = g).
    { apply upperByte_injective; try assumption.
      unfold upperByte. congruence. }
    assert (Eb : kb = b).
    { apply upperByte_injective; try assumption.
      unfold upperByte. congruence. }
    subst. rewrite !Z.eqb_refl. reflexivity.
  - destruct (Z.eqb_spec kr r) as [->|]; [|reflexivity].
    destruct (Z.eqb_spec kg g) as [->|]; [|reflexivity].
    destruct (Z.eqb_spec kb b) as [->|]; [|reflexivity].
    exfalso. apply N. reflexivity.
Qed.

(** The table of names, read by channels. *)
Lemma lookupName_by_channels (r g b : Z) :
  (0 <= r <= 255)%Z -> (0 <= g <= 255)%Z -> (0 <= b <= 255)%Z ->
  lookupName colorNames (upperHex r g b) = lookupCorner cornerNames r g b.
Proof.
  intros Hr Hg Hb.
  assert (E : forall kr kg kb : Z,
            (0 <= kr <= 255)%Z -> (0 <= kg <= 255)%Z -> (0 <= kb <= 255)%Z ->
            String.eqb (upperHex kr kg kb) (upperHex r g b)
            = ((kr =? r) && (kg =? g) && (kb =? b))%Z).
  { intros. apply upperHex_eqb; assumption. }
  unfold colorNames, cornerNames.
  change "#FF0000"%string with (upperHex 255 0 0).
  change "#00FF00"%string with (upperHex 0 255 0).
  change "#0000FF"%string with (upperHex 0 0 255).
  change "#FFFF00"%string with (upperHex 255 255 0).
  change "#FF00FF"%string with (upperHex 255 0 255).
  change "#00FFFF"%string with (upperHex 0 255 255).
  change "#000000"%string with (upperHex 0 0 0).
  change "#FFFFFF"%string with (upperHex 255 255 255).
  cbn [lookupName lookupCorner].
  rewrite !E by lia. reflexivity.
Qed.

Lemma toLowerCase_valid (hex : string) :
  isValidHexColor hex = true -> isValidHexColor (toLowerCase hex) = true.
Proof.
  intro V. unfold isValidHexColor in *.
  destruct hex as [|c0 rest]; [discriminate|].
  destruct (Ascii.eqb c0 "#") eqn:E0.
  2:{ destruct c0 as [[] [] [] [] [] [] [] []]; try discriminate; discriminate E0. }
  apply Ascii.eqb_eq in E0. subst c0.
  cbn [toLowerCase]. change (toLowerAscii "#") with "#"%char.
  apply andb_true_iff in V. destruct V as [Hlen Hdig].
  apply andb_true_iff. split.
  - clear Hdig. revert Hlen. generalize 6%nat.
    induction rest as [|c rest IH]; intros n Hn; [exact Hn|].
    destruct n; [discriminate|]. cbn in *. apply IH, Hn.
  - clear Hlen. induction rest as [|c rest IH]; [reflexivity|].
    cbn [toLowerCase list_ascii_of_string forallb] in *.
    apply andb_true_iff in Hdig. destruct Hdig as [Hc Hrest].
    apply andb_true_iff. split; [|apply IH, Hrest].
    clear - Hc.
    destruct c as [[] [] [] [] [] [] [] []]; try discriminate Hc; reflexivity.
Qed.

Lemma getColorName_valid (hex : string) (r g b : Z) :
  isValidHexColor hex = true -> hexToRgb hex = Some [r; g; b] ->
  getColorName hex = Some (nameOfChannels r g b).
Proof.
  intros V P.
  destruct (valid_hex_upper hex V) as (r' & g' & b' & P' & Hr & Hg & Hb & U & A).
  rewrite P in P'. injection P' as <- <- <-.
  unfold getColorName. rewrite A, U, (lookupName_by_channels r g b Hr Hg Hb).
  unfold nameOfChannels. destruct (lookupCorner cornerNames r g b); reflexivity.
Qed.

(** [getColorName] on a valid colour depends on the channels only, not on
    the case of the digits; it names the eight colours whose channels are
    all 0 or 255 and answers Unknown for every other colour. *)
Theorem getColorName_by_channels (hex : string) :
  isValidHexColor hex = true ->
  exists r g b : Z,
    hexToRgb hex = Some [r; g; b] /\
    getColorName hex = Some (nameOfChannels r g b) /\
    getColorName (toLowerCase hex) = getColorName hex /\
    (getColorName hex <> Some "Unknown"%string <->
     ((r = 0 \/ r = 255) /\ (g = 0 \/ g = 255) /\ (b = 0 \/ b = 255))%Z).
Proof.
  intro V.
  destruct (valid_hex_channels hex V) as (r & g & b & P & _ & _ & _ & _ & L).
  exists r, g, b.
  pose proof (getColorName_valid hex r g b V P) as E.
  split; [exact P|]. split; [exact E|].
  split.
  { rewrite E. apply getColorName_valid; [apply toLowerCase_valid, V | exact L]. }
  rewrite E. unfold nameOfChannels, cornerNames. cbn [lookupCorner].
  split.
  - intro N.
    repeat match goal with
           | H : context [(?k =? ?x)%Z] |- _ =>
               destruct (Z.eqb_spec k x); cbn [andb] in H
           end;
      try (exfalso; apply N; reflexivity); lia.
  - intros (Hr & Hg & Hb).
    destruct Hr as [-> | ->]; destruct Hg as [-> | ->];
      destruct Hb as [-> | ->]; cbn; discriminate.
Qed.

Lemma getColorName_by_channels_witness :
  exists r g b : Z,
    hexToRgb "#ff00FF" = Some [r; g; b] /\
    getColorName "#ff00FF" = Some (nameOfChannels r g b) /\
    getColorName (toLowerCase "#ff00FF") = getColorName "#ff00FF" /\
    (getColorName "#ff00FF" <> Some "Unknown"%string <->
     ((r = 0 \/ r = 255) /\ (g = 0 \/ g = 255) /\ (b = 0 \/ b = 255))%Z).
Proof.
  apply (getColorName_by_channels "#ff00FF"). reflexivity.
Defined.

Example getColorName_examples :
  getColorName "#ff00ff" = Some "Magenta"%string /\
  getColorName "#808080" = Some "Unknown"%string /\
  getColorName "red" = Some "Unknown"%string.
Proof. repeat split. Qed.

(** ** Two-decimal rounding of the forward conversions *)

Lemma round2_near (x : Q) : x - (1 # 200) < round2 x /\ round2 x <= x + (1 # 200).
Proof.
  unfold round2, Math_round.
  pose proof (Qfloor_le (x * 100 + (1 # 2))) as H1.
  pose proof (Qlt_floor (x * 100 + (1 # 2))) as H2.
  rewrite inject_Z_plus in H2. change (inject_Z 1) with 1 in H2.
  set (f := inject_Z (Qfloor (x * 100 + (1 # 2)))) in *. clearbody f.
  split.
  - apply Qlt_shift_div_l; [reflexivity|]. lra.
  - apply Qle_shift_div_r; [reflexivity|]. lra.
Qed.

Lemma round2_monotone (x y : Q) : x <= y -> round2 x <= round2 y.
Proof.
  intro H. unfold round2, Math_round.
  apply Qmult_le_compat_r; [|discriminate].
  rewrite <- Zle_Qle. apply Qfloor_resp_le. lra.
Qed.

Lemma round2_range (lo hi : Z) (x : Q) :
  inject_Z lo <= x <= inject_Z hi -> inject_Z lo <= round2 x <= inject_Z hi.
Proof.
  intros [H1 H2].
  assert (E : forall k : Z, round2 (inject_Z k) == inject_Z k).
  { intro k. unfold round2.
    rewrite (Math_round_eq (inject_Z k * 100) (k * 100)).
    - rewrite inject_Z_mult. change (inject_Z 100) with 100. field.
    - rewrite inject_Z_mult. reflexivity. }
  split.
  - rewrite <- (E lo). apply round2_monotone, H1.
  - rewrite <- (E hi). apply round2_monotone, H2.
Qed.

Lemma rounded_triple_valid (h s l : Q) :
  0 <= h <= 360 /\ 0 <= s <= 100 /\ 0 <= l <= 100 ->
  0 <= round2 h <= 360 /\ 0 <= round2 s <= 100 /\ 0 <= round2 l <= 100.
Proof.
  intros (Hh & Hs & Hl).
  split; [exact (round2_range 0 360 h Hh)|].
  split; [exact (round2_range 0 100 s Hs) | exact (round2_range 0 100 l Hl)].
Qed.

Section ForwardRounding.

Variable lib : HsluvLib.

(** [HexToHsluv] and [HexToHpluv] return the package's three values rounded
    to two decimals, each within 0.005 of the value.  The rounding keeps a
    triple that the reverse conversion accepts acceptable: when the
    package's values are in range, [HsluvToHex] and [HpluvToHex] do not
    throw on the rounded values. *)
Theorem forward_rounding (hex : string) :
  let c := lib_hexToHsluv lib hex in
  let d := lib_hexToHpluv lib hex in
  isValidHexColor hex = true ->
  HexToHsluv lib hex
  = Ok {| hsl_h := round2 (hsl_h c); hsl_s := round2 (hsl_s c);
          hsl_l := round2 (hsl_l c) |} /\
  HexToHpluv lib hex
  = Ok {| hpl_h := round2 (hpl_h d); hpl_p := round2 (hpl_p d);
          hpl_l := round2 (hpl_l d) |} /\
  (forall x : Q, x - (1 # 200) < round2 x /\ round2 x <= x + (1 # 200)) /\
  (isValidHsluv (hsl_h c) (hsl_s c) (hsl_l c) = true ->
   exists out : string,
     HsluvToHex lib (round2 (hsl_h c)) (round2 (hsl_s c)) (round2 (hsl_l c))
     = Ok out) /\
  (isValidHpluv (hpl_h d) (hpl_p d) (hpl_l d) = true ->
   exists out : string,
     HpluvToHex lib (round2 (hpl_h d)) (round2 (hpl_p d)) (round2 (hpl_l d))
     = Ok out).
Proof.
  intros c d V.
  split; [unfold HexToHsluv; rewrite V; reflexivity|].
  split; [unfold HexToHpluv; rewrite V; reflexivity|].
  split; [exact round2_near|].
  split; intro H.
  - apply isValidHsluv_iff, rounded_triple_valid, isValidHsluv_iff in H.
    unfold HsluvToHex. rewrite H. eexists. reflexivity.
  - apply isValidHpluv_iff, rounded_triple_valid, isValidHpluv_iff in H.
    unfold HpluvToHex. rewrite H. eexists. reflexivity.
Qed.

End ForwardRounding.

Lemma forward_rounding_witness :
  isValidHexColor "#FF0000" = true /\
  forall lib : HsluvLib,
    HexToHsluv lib "#FF0000"
    = Ok {| hsl_h := round2 (hsl_h (lib_hexToHsluv lib "#FF0000"));
            hsl_s := round2 (hsl_s (lib_hexToHsluv lib "#FF0000"));
            hsl_l := round2 (hsl_l (lib_hexToHsluv lib "#FF0000")) |}.
Proof.
  split; [reflexivity|]. intro lib.
  exact (proj1 (forward_rounding lib "#FF0000" eq_refl)).
Defined.

Example round2_examples :
  round2 (12177 # 1000) == 1218 # 100 /\ round2 (1 # 200) == 1 # 100
  /\ round2 (- (1 # 200)) == 0.
Proof. repeat split. Qed.

(** ** Linear gradient: length, steps and end colours *)







(** ** Names of strings that are not colours *)

Lemma toUpperAscii_hash (c : ascii) :
  Ascii.eqb (toUpperAscii c) "#" = Ascii.eqb c "#".
Proof. destruct c as [[] [] [] [] [] [] [] []]; reflexivity. Qed.

Lemma toUpperAscii_hex_digit (c : ascii) :
  isHexDigit (toUpperAscii c) = isHexDigit c.
Proof. destruct c as [[] [] [] [] [] [] [] []]; reflexivity. Qed.

Lemma toUpperCase_length (s : string) :
  String.length (toUpperCase s) = String.length s.
Proof. induction s as [|c r IH]; cbn; [reflexivity | rewrite IH; reflexivity]. Qed.

Lemma toUpperCase_hex_digits (s : string) :
  forallb isHexDigit (list_ascii_of_string (toUpperCase s))
  = forallb isHexDigit (list_ascii_of_string s).
Proof.
  induction s as [|c r IH]; [reflexivity|].
  cbn [toUpperCase list_ascii_of_string forallb].
  rewrite toUpperAscii_hex_digit, IH. reflexivity.
Qed.

Lemma isValidHexColor_hash (s : string) :
  isValidHexColor s
  = match s with
    | EmptyString => false
    | String c rest =>
        Ascii.eqb c "#"
        && ((String.length rest =? 6)%nat
            && forallb isHexDigit (list_ascii_of_string rest))
    end.
Proof.
  destruct s as [|c rest]; [reflexivity|].
  destruct (Ascii.eqb_spec c "#") as [->|N]; [reflexivity|].
  destruct c as [[] [] [] [] [] [] [] []]; try reflexivity.
  exfalso. apply N. reflexivity.
Qed.

(** Upper-casing does not change whether a string is a valid colour. *)
Lemma toUpperCase_valid (s : string) :
  isValidHexColor (toUpperCase s) = isValidHexColor s.
Proof.
  rewrite !isValidHexColor_hash.
  destruct s as [|c rest]; [reflexivity|].
  cbn [toUpperCase].
  rewrite toUpperAscii_hash, toUpperCase_length, toUpperCase_hex_digits.
  reflexivity.
Qed.

(** Every key of the table is a valid colour. *)
Lemma lookupName_key_valid (key name : string) :
  lookupName colorNames key = Some name -> isValidHexColor key = true.
Proof.
  unfold colorNames. cbn [lookupName].
  repeat match goal with
         | |- context [String.eqb ?k key] =>
             destruct (String.eqb_spec k key) as [<-|_]; [reflexivity|]
         end.
  discriminate.
Qed.

Lemma getColorName_invalid (s : string) :
  isValidHexColor s = false ->
  forallb isAscii (list_ascii_of_string s) = true ->
  getColorName s = Some "Unknown"%string.
Proof.
  intros V A. unfold getColorName. rewrite A.
  destruct (lookupName colorNames (toUpperCase s)) as [name|] eqn:E;
    [|reflexivity].
  apply lookupName_key_valid in E. rewrite toUpperCase_valid in E.
  congruence.
Qed.

(** ** Invalid colours *)

Section InvalidColours.

Variable lib : HsluvLib.

(** A colour that is not a hash sign and six hexadecimal digits is rejected
    by every formula that checks its colours, with the same error and
    whatever the other arguments are: the check of the colours comes first.
    [ColorName] is the one formula that takes a colour without checking it:
    it answers the name [Unknown] for such a string. *)
Theorem invalid_colour_rejected (bad : string) :
  isValidHexColor bad = false ->
  HexToHsluv lib bad = UserVisibleError invalidHex /\
  HexToHpluv lib bad = UserVisibleError invalidHex /\
  ComplementaryColor lib bad = UserVisibleError invalidHex /\
  IsWarmOrCool lib bad = UserVisibleError invalidHex /\
  TriadicScheme lib bad = UserVisibleError invalidHex /\
  TetradicScheme lib bad = UserVisibleError invalidHex /\
  (forall count, MonochromaticScheme lib bad count = UserVisibleError invalidHex) /\
  (forall count angle,
     AnalogousScheme lib bad count angle = UserVisibleError invalidHex) /\
  (forall adjustment,
     AdjustBrightness lib bad adjustment = UserVisibleError invalidHex /\
     AdjustSaturation lib bad adjustment = UserVisibleError invalidHex) /\
  (forall amount,
     Tint bad amount = Some (UserVisibleError invalidHex) /\
     Shade bad amount = Some (UserVisibleError invalidHex)) /\
  (forall type,
     SimulateColorBlindness bad type = Some (UserVisibleError invalidHex)) /\
  (forall level,
     SuggestTextColor bad level = Some (UserVisibleError invalidHex)) /\
  (forall other : string,
     EvaluateColorHarmony lib bad other = UserVisibleError invalidHex /\
     EvaluateColorHarmony lib other bad = UserVisibleError invalidHex /\
     ContrastRatio bad other = Some (UserVisibleError invalidHex) /\
     ContrastRatio other bad = Some (UserVisibleError invalidHex) /\
     (forall level size,
        IsAccessible bad other level size = Some (UserVisibleError invalidHex) /\
        IsAccessible other bad level size = Some (UserVisibleError invalidHex)) /\
     (forall ratio,
        MixColors bad other ratio = Some (UserVisibleError invalidHex) /\
        MixColors other bad ratio = Some (UserVisibleError invalidHex)) /\
     (forall steps,
        LinearGradient bad other steps = Some (UserVisibleError invalidHex) /\
        LinearGradient other bad steps = Some (UserVisibleError invalidHex))) /\
  (forallb isAscii (list_ascii_of_string bad) = true ->
   ColorName bad = Some "Unknown"%string).
Proof.
  intro H.
  unfold HexToHsluv, HexToHpluv, ComplementaryColor, IsWarmOrCool,
    TriadicScheme, TetradicScheme, MonochromaticScheme, AnalogousScheme,
    AdjustBrightness, AdjustSaturation, Tint, Shade, SimulateColorBlindness,
    SuggestTextColor, EvaluateColorHarmony, ContrastRatio, IsAccessible,
    MixColors, LinearGradient.
  rewrite H. cbn [negb orb].
  do 12 (split; [intros; try split; reflexivity|]).
  split.
  - intro other. destruct (isValidHexColor other); cbn [negb orb];
      repeat split; reflexivity.
  - intro A. apply getColorName_invalid; assumption.
Qed.

End InvalidColours.

Lemma invalid_colour_rejected_witness :
  isValidHexColor "red" = false /\
  isValidHexColor "#FFF" = false /\
  isValidHexColor "FF0000" = false /\
  forall lib : HsluvLib,
    TriadicScheme lib "#FFF" = UserVisibleError invalidHex.
Proof.
  repeat (split; [reflexivity|]). intro lib.
  destruct (invalid_colour_rejected lib "#FFF" eq_refl)
    as (_ & _ & _ & _ & H & _).
  exact H.
Defined.

Example ColorName_unchecked :
  ColorName "red" = Some "Unknown"%string /\
  ColorName "#FFF" = Some "Unknown"%string /\
  ColorName "#ff0000" = Some "Red"%string.
Proof. repeat split. Qed.
